(** * Schema upgrade engine of the SQL store ([store/sqlstore/upgrade.go])

    The development embeds [getVersion], [setVersion], [Upgrade] and the
    four migration steps [upgradeV1] .. [upgradeV4] over an executable
    model of the [database/sql] handle they talk to, and proves the
    properties of the upgrade engine.

    What the model of the database takes for granted:
    - the driver may fail any single call (a statement, [Begin], [Commit],
      [Rollback]); which calls fail is given by a list of answers that the
      world carries, so a run is a function of the world it starts in;
    - a transaction works on a private copy of the durable store; its
      statements reach the durable store at [Commit], all at once, and not
      before; a [Commit] that fails installs nothing;
    - the statements on [whatsmeow_version] that the code sends are
      interpreted; every other statement is recorded in the schema in the
      order of execution and leaves the version table alone;
    - a [Scan] that fails leaves its destination as it was;
    - a Go [int] is a [Z]: the only arithmetic is [version + 1] with
      [version < len(Upgrades)], which does not wrap. *)

From Stdlib Require Import ZArith List Ascii String Bool Lia.
Import ListNotations.

Local Open Scope Z_scope.
Local Open Scope string_scope.
Local Open Scope list_scope.

(** ** The [database/sql] side *)

Module Sql.

(** A Go [error]; [None] is [nil]. *)
Definition error : Type := option string.

Definition isErr (err : error) : bool :=
  match err with Some _ => true | None => false end.

Definition ErrTxDone : string :=
  "sql: transaction has already been committed or rolled back".
Definition ErrNoRows : string := "sql: no rows in result set".
Definition errNoVersionTable : string := "no such table: whatsmeow_version".
Definition errBindArgs : string := "sql: wrong number of bind arguments".
Definition errScanInt : string := "sql: Scan error on column index 0: converting to int".

(** A value held in the [version] column.  [VOther] stands for any stored
    value that [Scan] cannot convert to a Go [int]. *)
Inductive Cell : Type :=
| VInt (z : Z)
| VNull
| VOther (repr : string).

(** The database contents the engine can tell apart: the version table
    [whatsmeow_version] ([None] while it does not exist, otherwise its rows
    in storage order) and the schema, kept as the sequence of all other
    statements that were executed, in order. *)
Record Store : Type := mkStore {
  version_table : option (list Cell);
  schema : list string
}.

Definition createVersionTable : string :=
  "CREATE TABLE IF NOT EXISTS whatsmeow_version (version INTEGER)".
Definition selectVersion : string :=
  "SELECT version FROM whatsmeow_version LIMIT 1".
Definition deleteVersion : string := "DELETE FROM whatsmeow_version".
Definition insertVersion : string :=
  "INSERT INTO whatsmeow_version (version) VALUES (?)".

(** What one statement does to a store.  The three statements on the version
    table are interpreted; every other statement is appended to [schema].
    A statement that the engine rejects leaves the store as it was. *)
Definition apply_stmt (query : string) (args : list Z) (s : Store)
  : error * Store :=
  if query =? createVersionTable then
    match version_table s with
    | None => (None, mkStore (Some []) (schema s))
    | Some _ => (None, s)
    end
  else if query =? deleteVersion then
    match version_table s with
    | None => (Some errNoVersionTable, s)
    | Some _ => (None, mkStore (Some []) (schema s))
    end
  else if query =? insertVersion then
    match version_table s, args with
    | None, _ => (Some errNoVersionTable, s)
    | Some rows, [v] => (None, mkStore (Some (rows ++ [VInt v])) (schema s))
    | Some _, _ => (Some errBindArgs, s)
    end
  else (None, mkStore (version_table s) (schema s ++ [query])).

(** The version as the engine's query sees it: the first row's integer, and
    0 when there is no table, no row, or a first row that is not an integer. *)
Definition stored_version (s : Store) : Z :=
  match version_table s with
  | Some (VInt z :: _) => z
  | _ => 0
  end.

(** *** Transactions and the world *)

Inductive TxStatus : Type := TxOpen | TxCommitted | TxRolledBack.

Record TxRec : Type := mkTx {
  tx_status : TxStatus;
  tx_pending : Store
}.

(** A [*sql.Tx].  Handle 0 is the nil pointer; handle [S i] is the [i]-th
    transaction ever begun. *)
Definition Tx : Type := nat.

(** One invocation of a migration step, recorded when the step returns:
    which step, on which transaction, the durable store at the moment of the
    invocation, and what the step returned.  The record is an observation of
    the run; no operation reads it. *)
Record Call : Type := mkCall {
  call_step : Z;
  call_tx : Tx;
  call_durable : Store;
  call_result : error
}.

(** Everything outside the Go process.  [faults] is what the driver is going
    to answer, one entry per statement, [Begin], [Commit] or [Rollback] sent
    to it ([Some e]: the call fails with [e]); once the list is used up
    nothing fails any more.  [past] holds the earlier durable states, newest
    first. *)
Record World : Type := mkWorld {
  durable : Store;
  past : list Store;
  txs : list TxRec;
  faults : list error;
  log : list (string * list Z);
  calls : list Call
}.

Definition states (w : World) : list Store := durable w :: past w.

Definition set_faults (fs : list error) (w : World) : World :=
  mkWorld (durable w) (past w) (txs w) fs (log w) (calls w).

Definition set_txs (ts : list TxRec) (w : World) : World :=
  mkWorld (durable w) (past w) ts (faults w) (log w) (calls w).

Definition install (s : Store) (w : World) : World :=
  mkWorld s (durable w :: past w) (txs w) (faults w) (log w) (calls w).

Definition add_log (line : string * list Z) (w : World) : World :=
  mkWorld (durable w) (past w) (txs w) (faults w) (log w ++ [line]) (calls w).

Definition add_call (cl : Call) (w : World) : World :=
  mkWorld (durable w) (past w) (txs w) (faults w) (log w) (calls w ++ [cl]).

Definition lookup_tx (w : World) (tx : Tx) : option TxRec :=
  match tx with
  | O => None
  | S i => nth_error (txs w) i
  end.

Fixpoint replace_nth {A : Type} (i : nat) (x : A) (l : list A) : list A :=
  match l, i with
  | [], _ => []
  | _ :: t, O => x :: t
  | h :: t, S j => h :: replace_nth j x t
  end.

Definition update_tx (tx : Tx) (r : TxRec) (w : World) : World :=
  match tx with
  | O => w
  | S i => set_txs (replace_nth i r (txs w)) w
  end.

(** The driver's next answer. *)
Definition pop (fs : list error) : error * list error :=
  match fs with
  | [] => (None, [])
  | f :: rest => (f, rest)
  end.

(** *** The state monad of the Go process *)

Definition M (A : Type) : Type := World -> A * World.

Definition ret {A : Type} (a : A) : M A := fun w => (a, w).

Definition bind {A B : Type} (m : M A) (k : A -> M B) : M B :=
  fun w => let (a, w1) := m w in k a w1.

Declare Scope go_scope.
Delimit Scope go_scope with go.
Notation "x <- m ;; k" := (bind m (fun x => k))
  (at level 61, m at next level, right associativity) : go_scope.
Notation "' p <- m ;; k" := (bind m (fun p => k))
  (at level 61, p pattern, m at next level, right associativity) : go_scope.
Local Open Scope go_scope.

(** [db.Exec]: one statement, committed on its own. *)
Definition db_Exec (query : string) (args : list Z) : M error :=
  fun w =>
    let (f, rest) := pop (faults w) in
    match f with
    | Some e => (Some e, set_faults rest w)
    | None =>
        let (err, s) := apply_stmt query args (durable w) in
        match err with
        | Some e => (Some e, set_faults rest w)
        | None => (None, install s (set_faults rest w))
        end
    end.

(** [db.QueryRow] for the one-column query on the version table, the only
    query of the package.  The [*sql.Row] it returns is never nil; it
    carries either the query's error or the first row, if there is one. *)
Record Row : Type := mkRow {
  row_err : error;
  row_cell : option Cell
}.

Definition db_QueryRow (query : string) : M (option Row) :=
  fun w =>
    let (f, rest) := pop (faults w) in
    match f with
    | Some e => (Some (mkRow (Some e) None), set_faults rest w)
    | None =>
        if query =? selectVersion then
          match version_table (durable w) with
          | None => (Some (mkRow (Some errNoVersionTable) None), set_faults rest w)
          | Some rows => (Some (mkRow None (hd_error rows)), set_faults rest w)
          end
        else (Some (mkRow (Some "unsupported query") None), set_faults rest w)
    end.

(** [row.Scan(&dest)] into a Go [int]: the new value of [dest] and the
    error.  A failing scan leaves [dest] as it was. *)
Definition Row_Scan (row : Row) (dest : Z) : Z * error :=
  match row_err row with
  | Some e => (dest, Some e)
  | None =>
      match row_cell row with
      | None => (dest, Some ErrNoRows)
      | Some (VInt z) => (z, None)
      | Some _ => (dest, Some errScanInt)
      end
  end.

(** [db.Begin]: a new transaction working on a private copy of the durable
    store. *)
Definition db_Begin : M (Tx * error) :=
  fun w =>
    let (f, rest) := pop (faults w) in
    match f with
    | Some e => ((O, Some e), set_faults rest w)
    | None =>
        ((S (List.length (txs w)), None),
         set_txs (txs w ++ [mkTx TxOpen (durable w)]) (set_faults rest w))
    end.

(** [tx.Exec]: the statement acts on the transaction's copy only. *)
Definition tx_Exec (tx : Tx) (query : string) (args : list Z) : M error :=
  fun w =>
    match lookup_tx w tx with
    | Some (mkTx TxOpen p) =>
        let (f, rest) := pop (faults w) in
        match f with
        | Some e => (Some e, set_faults rest w)
        | None =>
            let (err, p') := apply_stmt query args p in
            (err, update_tx tx (mkTx TxOpen p') (set_faults rest w))
        end
    | _ => (Some ErrTxDone, w)
    end.

(** [tx.Commit]: the transaction's copy becomes the durable store, all at
    once; a commit that fails installs nothing and ends the transaction. *)
Definition tx_Commit (tx : Tx) : M error :=
  fun w =>
    match lookup_tx w tx with
    | Some (mkTx TxOpen p) =>
        let (f, rest) := pop (faults w) in
        match f with
        | Some e => (Some e, update_tx tx (mkTx TxRolledBack p) (set_faults rest w))
        | None => (None, install p (update_tx tx (mkTx TxCommitted p) (set_faults rest w)))
        end
    | _ => (Some ErrTxDone, w)
    end.

(** [tx.Rollback]: the transaction ends and its copy is dropped, also when
    the driver reports an error for the rollback itself. *)
Definition tx_Rollback (tx : Tx) : M error :=
  fun w =>
    match lookup_tx w tx with
    | Some (mkTx TxOpen p) =>
        let (f, rest) := pop (faults w) in
        (f, update_tx tx (mkTx TxRolledBack p) (set_faults rest w))
    | _ => (Some ErrTxDone, w)
    end.

(** [log.Infof]. *)
Definition log_Infof (format : string) (args : list Z) : M unit :=
  fun w => (tt, add_log (format, args) w).

(** *** Code that is handed a transaction

    A function that receives a [*sql.Tx] and only calls [Exec] on it is a
    [TxProg]: the statements it sends, each continued by what it does with
    the error that comes back. *)
Inductive TxProg : Type :=
| Done (err : error)
| Exec (query : string) (args : list Z) (next : error -> TxProg).

(** Running such a function on the transaction [tx]. *)
Fixpoint run (tx : Tx) (p : TxProg) : M error :=
  match p with
  | Done err => ret err
  | Exec query args next => err <- tx_Exec tx query args ;; run tx (next err)
  end.

(** The same on a bare store: what the function leaves in an open
    transaction whose copy was [s], under the driver answers [fs]. *)
Fixpoint exec_prog (p : TxProg) (s : Store) (fs : list error)
  : error * Store * list error :=
  match p with
  | Done err => (err, s, fs)
  | Exec query args next =>
      let (f, rest) := pop fs in
      match f with
      | Some e => exec_prog (next (Some e)) s rest
      | None =>
          let (err, s') := apply_stmt query args s in
          exec_prog (next err) s' rest
      end
  end.

End Sql.

(** ** The package [sqlstore] *)

Module Sqlstore.
Import Sql.
Local Open Scope go_scope.
Local Open Scope Z_scope.

(** The fields of [Container] that the upgrade code reads.  The database
    handle [c.db] and the logger [c.log] live in the [World]. *)
Record Container : Type := mkContainer {
  dialect : string
}.

(** [type upgradeFunc func(tx *sql.Tx, c *Container) error]: the transaction
    argument is the one the [TxProg] is run on. *)
Definition upgradeFunc : Type := Container -> TxProg.

Notation "x <~ p ;; k" := (p (fun x => k))
  (at level 61, p at next level, right associativity) : go_scope.

(** [fmt.Sprintf] for formats whose only verb is [%s]. *)
Fixpoint Sprintf (format : string) (args : list string) : string :=
  match format with
  | EmptyString => EmptyString
  | String "%"%char (String "s"%char rest) =>
      match args with
      | a :: args' => (a ++ Sprintf rest args')%string
      | [] => ("%!s(MISSING)" ++ Sprintf rest [])%string
      end
  | String ch rest => String ch (Sprintf rest args)
  end.

(** *** The statements of the migration steps *)

Definition createDevice : string :=
"CREATE TABLE whatsmeow_device (
		jid VARCHAR(255) ,

		registration_id BIGINT NOT NULL CHECK ( registration_id >= 0 AND registration_id < 4294967296 ),

		noise_key    LONGBLOB NOT NULL CHECK ( length(noise_key) = 32 ),
		identity_key LONGBLOB NOT NULL CHECK ( length(identity_key) = 32 ),

		signed_pre_key     LONGBLOB   NOT NULL CHECK ( length(signed_pre_key) = 32 ),
		signed_pre_key_id  INTEGER NOT NULL CHECK ( signed_pre_key_id >= 0 AND signed_pre_key_id < 16777216 ),
		signed_pre_key_sig LONGBLOB   NOT NULL CHECK ( length(signed_pre_key_sig) = 64 ),

		adv_key         LONGBLOB NOT NULL,
		adv_details     LONGBLOB NOT NULL,
		adv_account_sig LONGBLOB NOT NULL CHECK ( length(adv_account_sig) = 64 ),
		adv_device_sig  LONGBLOB NOT NULL CHECK ( length(adv_device_sig) = 64 ),

		platform      TEXT NOT NULL,
		business_name TEXT NOT NULL,
		push_name     TEXT NOT NULL,
		PRIMARY KEY (jid)
);".

Definition createIdentityKeys : string :=
"CREATE TABLE whatsmeow_identity_keys (
		our_jid  VARCHAR(255),
		their_id TEXT,
		identity LONGBLOB NOT NULL CHECK ( length(identity) = 32 ),

		PRIMARY KEY (our_jid, their_id(20)),
		-- FOREIGN KEY (our_jid) REFERENCES whatsmeow_device(jid) ON DELETE CASCADE ON UPDATE CASCADE
        CONSTRAINT fk_wm_identity_keys
			FOREIGN KEY (our_jid)
			REFERENCES whatsmeow_device (jid)
			ON DELETE CASCADE
			ON UPDATE CASCADE
	);".

Definition createPreKeysFormat : string :=
"CREATE TABLE whatsmeow_pre_keys (
		jid      VARCHAR(255),
		key_id   INTEGER   CHECK ( key_id >= 0 AND key_id < 16777216 ),
		%s   LONGBLOB  NOT NULL CHECK ( length(%s) = 32 ),
		uploaded BOOLEAN NOT NULL,

		PRIMARY KEY (jid, key_id),
		-- FOREIGN KEY (jid) REFERENCES whatsmeow_device(jid) ON DELETE CASCADE ON UPDATE CASCADE
		CONSTRAINT fk_wm_pre_keys
			FOREIGN KEY (jid)
			REFERENCES whatsmeow_device (jid)
			ON DELETE CASCADE
			ON UPDATE CASCADE
		);".

Definition createSessions : string :=
"CREATE TABLE whatsmeow_sessions (
		our_jid  VARCHAR(255),
		their_id TEXT,
		session  LONGBLOB,

		PRIMARY KEY (our_jid, their_id(20)),
		-- FOREIGN KEY (our_jid) REFERENCES whatsmeow_device(jid) ON DELETE CASCADE ON UPDATE CASCADE
		
		CONSTRAINT fk_wm_sessions
			FOREIGN KEY (our_jid)
			REFERENCES whatsmeow_device (jid)
			ON DELETE CASCADE
			ON UPDATE CASCADE
	);".

Definition createSenderKeys : string :=
"CREATE TABLE whatsmeow_sender_keys (
		our_jid    VARCHAR(255),
		chat_id    TEXT,
		sender_id  TEXT,
		sender_key LONGBLOB NOT NULL,

		PRIMARY KEY (our_jid, chat_id(20), sender_id(20)),
		-- FOREIGN KEY (our_jid) REFERENCES whatsmeow_device(jid) ON DELETE CASCADE ON UPDATE CASCADE
		
		CONSTRAINT fk_wm_sender_keys
			FOREIGN KEY (our_jid)
			REFERENCES whatsmeow_device (jid)
			ON DELETE CASCADE
			ON UPDATE CASCADE
	);".

Definition createAppStateSyncKeys : string :=
"CREATE TABLE whatsmeow_app_state_sync_keys (
		jid         VARCHAR(255),
		key_id      LONGBLOB,
		key_data    LONGBLOB  NOT NULL,
		timestamp   BIGINT NOT NULL,
		fingerprint LONGBLOB  NOT NULL,

		PRIMARY KEY (jid, key_id(20)),
		-- FOREIGN KEY (jid) REFERENCES whatsmeow_device(jid) ON DELETE CASCADE ON UPDATE CASCADE
		CONSTRAINT fk_wm_app_state_sync_keys
			FOREIGN KEY (jid)
			REFERENCES whatsmeow_device (jid)
			ON DELETE CASCADE
			ON UPDATE CASCADE
	);".

Definition createAppStateVersion : string :=
"CREATE TABLE whatsmeow_app_state_version (
		jid     VARCHAR(255),
		name    VARCHAR(255),
		version BIGINT NOT NULL,
		hash    LONGBLOB  NOT NULL CHECK ( length(hash) = 128 ),

		PRIMARY KEY (jid, name),
		-- FOREIGN KEY (jid) REFERENCES whatsmeow_device(jid) ON DELETE CASCADE ON UPDATE CASCADE
		CONSTRAINT fk_wm_app_state_version
			FOREIGN KEY (jid)
			REFERENCES whatsmeow_device (jid)
			ON DELETE CASCADE
			ON UPDATE CASCADE
	);".

Definition createAppStateMutationMacs : string :=
"CREATE TABLE whatsmeow_app_state_mutation_macs (
		jid       VARCHAR(255),
		name      VARCHAR(255),
		version   BIGINT,
		index_mac LONGBLOB          CHECK ( length(index_mac) = 32 ),
		value_mac LONGBLOB NOT NULL CHECK ( length(value_mac) = 32 ),

		PRIMARY KEY (jid, name(20), version, index_mac(20)),
		-- FOREIGN KEY (jid, name) REFERENCES whatsmeow_app_state_version(jid, name) ON DELETE CASCADE ON UPDATE CASCADE
		CONSTRAINT fk_wm_app_state_mutation_macs
			FOREIGN KEY (jid, name)
			REFERENCES whatsmeow_app_state_version (jid, name)
			ON DELETE CASCADE
			ON UPDATE CASCADE
	);".

Definition createContacts : string :=
"CREATE TABLE whatsmeow_contacts (
		our_jid       VARCHAR(255),
		their_jid     TEXT,
		first_name    TEXT,
		full_name     TEXT,
		push_name     TEXT,
		business_name TEXT,

		PRIMARY KEY (our_jid, their_jid(20)),
		-- FOREIGN KEY (our_jid) REFERENCES whatsmeow_device(jid) ON DELETE CASCADE ON UPDATE CASCADE
		CONSTRAINT fk_wm_contacts
			FOREIGN KEY (our_jid)
			REFERENCES whatsmeow_device (jid)
			ON DELETE CASCADE
			ON UPDATE CASCADE
	);".

Definition createChatSettings : string :=
"CREATE TABLE whatsmeow_chat_settings (
		our_jid       VARCHAR(255),
		chat_jid      TEXT,
		muted_until   BIGINT  NOT NULL DEFAULT 0,
		pinned        BOOLEAN NOT NULL DEFAULT false,
		archived      BOOLEAN NOT NULL DEFAULT false,

		PRIMARY KEY (our_jid, chat_jid(20)),
		-- FOREIGN KEY (our_jid) REFERENCES whatsmeow_device(jid) ON DELETE CASCADE ON UPDATE CASCADE
		CONSTRAINT fk_wm_chat_settings
			FOREIGN KEY (our_jid)
			REFERENCES whatsmeow_device (jid)
			ON DELETE CASCADE
			ON UPDATE CASCADE
	);".

Definition fillSigKeyPostgres : string :=
"
UPDATE whatsmeow_device SET adv_account_sig_key=(
	SELECT identity
	FROM whatsmeow_identity_keys
	WHERE our_jid=whatsmeow_device.jid
	  AND their_id=concat(split_part(whatsmeow_device.jid, '.', 1), '0')
);
DELETE FROM whatsmeow_device WHERE adv_account_sig_key IS NULL;
ALTER TABLE whatsmeow_device ALTER COLUMN adv_account_sig_key SET NOT NULL;
".

Definition fillSigKeySQLite : string :=
"
UPDATE whatsmeow_device SET adv_account_sig_key=(
	SELECT identity
	FROM whatsmeow_identity_keys
	WHERE our_jid=whatsmeow_device.jid
	  AND their_id=substr(whatsmeow_device.jid, 0, instr(whatsmeow_device.jid, '.')) || '0'
)
".

Definition createMessageSecretsFormat : string :=
"
	CREATE TABLE whatsmeow_message_secrets (
	  our_jid VARCHAR(255) NULL DEFAULT NULL,
	  chat_jid TEXT NULL DEFAULT NULL,
	  sender_jid TEXT NULL DEFAULT NULL,
	  message_id TEXT NULL DEFAULT NULL,
	  %s LONGBLOB NOT NULL CHECK ( length(%s) = 64 ),
  
  	CONSTRAINT fk_wm_msg_scrt
		FOREIGN KEY (our_jid)
		REFERENCES whatsmeow_device (jid)
		ON DELETE CASCADE
		ON UPDATE CASCADE);
	".

Definition createPrivacyTokens : string :=
"CREATE TABLE whatsmeow_privacy_tokens (
		our_jid   TEXT,
		their_jid TEXT,
		token     bytea  NOT NULL,
		timestamp BIGINT NOT NULL,
		PRIMARY KEY (our_jid, their_jid)
	)".

(** *** [getVersion] and [setVersion] *)

Definition getVersion (c : Container) : M (Z * error) :=
  err <- db_Exec "CREATE TABLE IF NOT EXISTS whatsmeow_version (version INTEGER)" [] ;;
  if isErr err then ret (-1, err) else
  let version := 0 in
  row <- db_QueryRow "SELECT version FROM whatsmeow_version LIMIT 1" ;;
  let version :=
    match row with
    | Some r => fst (Row_Scan r version)
    | None => version
    end in
  ret (version, None).

Definition setVersion (version : Z) : TxProg :=
  err <~ Exec "DELETE FROM whatsmeow_version" [] ;;
  if isErr err then Done err else
  err <~ Exec "INSERT INTO whatsmeow_version (version) VALUES (?)" [version] ;;
  Done err.

(** *** The migration steps *)

Definition upgradeV1 (_ : Container) : TxProg :=
  err <~ Exec createDevice [] ;;
  if isErr err then Done err else
  err <~ Exec createIdentityKeys [] ;;
  if isErr err then Done err else
  err <~ Exec (Sprintf createPreKeysFormat ["`key`"; "`key`"]) [] ;;
  if isErr err then Done err else
  err <~ Exec createSessions [] ;;
  if isErr err then Done err else
  err <~ Exec createSenderKeys [] ;;
  if isErr err then Done err else
  err <~ Exec createAppStateSyncKeys [] ;;
  if isErr err then Done err else
  err <~ Exec createAppStateVersion [] ;;
  if isErr err then Done err else
  err <~ Exec createAppStateMutationMacs [] ;;
  if isErr err then Done err else
  err <~ Exec createContacts [] ;;
  if isErr err then Done err else
  err <~ Exec createChatSettings [] ;;
  if isErr err then Done err else
  Done None.

Definition addSigKeyColumn : string :=
  "ALTER TABLE whatsmeow_device ADD COLUMN adv_account_sig_key LONGBLOB CHECK ( length(adv_account_sig_key) = 32 )".

Definition upgradeV2 (container : Container) : TxProg :=
  err <~ Exec addSigKeyColumn [] ;;
  if isErr err then Done err else
  if (dialect container =? "postgres")%string || (dialect container =? "pgx")%string then
    err <~ Exec fillSigKeyPostgres [] ;;
    Done err
  else
    err <~ Exec fillSigKeySQLite [] ;;
    Done err.

Definition upgradeV3 (container : Container) : TxProg :=
  err <~ Exec (Sprintf createMessageSecretsFormat ["`key`"; "`key`"]) [] ;;
  Done err.

Definition upgradeV4 (container : Container) : TxProg :=
  err <~ Exec createPrivacyTokens [] ;;
  Done err.

(** [var Upgrades = [...]upgradeFunc{upgradeV1, upgradeV2, upgradeV3, upgradeV4}] *)
Definition Upgrades : list upgradeFunc :=
  [upgradeV1; upgradeV2; upgradeV3; upgradeV4].

(** *** [Upgrade] *)

(** How a call of [Upgrade] ends: it returns an error value, or the Go
    runtime panics on an index out of range. *)
Inductive Outcome : Type :=
| Returned (err : error)
| Panicked.

(** [registry[version]] for a Go [int] index. *)
Definition index (registry : list upgradeFunc) (version : Z) : option upgradeFunc :=
  if version <? 0 then None else nth_error registry (Z.to_nat version).

(** [migrateFunc(tx, c)], leaving a [Call] record behind. *)
Definition invoke (version : Z) (tx : Tx) (p : TxProg) : M error :=
  fun w =>
    let (err, w') := run tx p w in
    (err, add_call (mkCall version tx (durable w) err) w').

Section Engine.

(** The array of steps [Upgrade] walks through; [Upgrades] in the package. *)
Variable registry : list upgradeFunc.
Variable c : Container.

Definition len : Z := Z.of_nat (List.length registry).

(** The body of the [for] loop; [None] when it falls through to
    [version++]. *)
Definition upgrade_iteration (version : Z) : M (option Outcome) :=
  '(tx, err) <- db_Begin ;;
  if isErr err then ret (Some (Returned err)) else
  match index registry version with
  | None => ret (Some Panicked)
  | Some migrateFunc =>
      _ <- log_Infof "Upgrading database to v%d" [version + 1] ;;
      err <- invoke version tx (migrateFunc c) ;;
      if isErr err then
        _ <- tx_Rollback tx ;;
        ret (Some (Returned err))
      else
      err <- run tx (setVersion (version + 1)) ;;
      if isErr err then ret (Some (Returned err)) else
      err <- tx_Commit tx ;;
      if isErr err then ret (Some (Returned err)) else
      ret None
  end.

(** [for ; version < len(Upgrades); version++ { ... }], by recursion on the
    number of iterations still to come, [len - version] (see
    [upgrade_from_unfold] for the loop as Go writes it). *)
Fixpoint upgrade_loop (todo : nat) (version : Z) : M Outcome :=
  match todo with
  | O => ret (Returned None)
  | S todo' =>
      r <- upgrade_iteration version ;;
      match r with
      | Some out => ret out
      | None => upgrade_loop todo' (version + 1)
      end
  end.

Definition upgrade_from (version : Z) : M Outcome :=
  upgrade_loop (Z.to_nat (len - version)) version.

Definition Upgrade : M Outcome :=
  '(version, err) <- getVersion c ;;
  if isErr err then ret (Returned err) else
  upgrade_from version.

End Engine.

(** ** The vocabulary of the properties *)

Definition logLine (version : Z) : string * list Z :=
  ("Upgrading database to v%d", [version + 1]).

(** The world an iteration leaves behind: the stores, the record of the
    transaction it began, the driver answers left, and the step's call. *)
Definition after_step (w : World) (now : Store) (before : list Store)
    (st : TxStatus) (copy : Store) (fs : list error) (version : Z)
    (res : error) : World :=
  mkWorld now before (txs w ++ [mkTx st copy]) fs
    (log w ++ [logLine version])
    (calls w ++ [mkCall version (S (List.length (txs w))) (durable w) res]).

(** The store after [CREATE TABLE IF NOT EXISTS whatsmeow_version]. *)
Definition created (s : Store) : Store :=
  match version_table s with
  | None => mkStore (Some []) (schema s)
  | Some _ => s
  end.

(** Every state of a history (newest first) comes from the one before it by
    [R]. *)
Fixpoint linked (R : Store -> Store -> Prop) (l : list Store) : Prop :=
  match l with
  | next :: (prev :: _) as rest => R prev next /\ linked R rest
  | _ => True
  end.

(** [v], [v + 1], ... : the indices of [k] steps taken in order from [v]. *)
Fixpoint zseq (v : Z) (k : nat) : list Z :=
  match k with
  | O => []
  | S k' => v :: zseq (v + 1) k'
  end.

(** The step was invoked while the durable store was at the step's own
    index. *)
Definition seen_at_own_version (cl : Call) : Prop :=
  stored_version (call_durable cl) = call_step cl.

(** If the call's transaction was committed, what it committed carries the
    version [call_step + 1] and became a durable state. *)
Definition bump_committed (w' : World) (cl : Call) : Prop :=
  forall p,
    lookup_tx w' (call_tx cl) = Some (mkTx TxCommitted p) ->
    version_table p = Some [VInt (call_step cl + 1)] /\ In p (states w').

(** The call returned no error and its transaction was committed with the
    version [call_step + 1]. *)
Definition committed_call (w' : World) (cl : Call) : Prop :=
  call_result cl = None /\
  exists p,
    lookup_tx w' (call_tx cl) = Some (mkTx TxCommitted p) /\
    version_table p = Some [VInt (call_step cl + 1)].

(** The driver fails neither of the two statements of [getVersion]. *)
Definition reads_ok (w : World) : Prop :=
  fst (pop (faults w)) = None /\ fst (pop (snd (pop (faults w)))) = None.

Section Vocabulary.

Variable registry : list upgradeFunc.
Variable c : Container.

(** The six ways through the body of the loop. *)
Inductive iteration_spec (version : Z) (w : World)
  : option Outcome -> World -> Prop :=
| it_begin_fails (e : string) (fs1 : list error) :
    pop (faults w) = (Some e, fs1) ->
    iteration_spec version w (Some (Returned (Some e))) (set_faults fs1 w)
| it_panics (fs1 : list error) :
    pop (faults w) = (None, fs1) ->
    index registry version = None ->
    iteration_spec version w (Some Panicked)
      (mkWorld (durable w) (past w) (txs w ++ [mkTx TxOpen (durable w)]) fs1
         (log w) (calls w))
| it_step_fails fs1 f (e : string) mid fs2 :
    pop (faults w) = (None, fs1) ->
    index registry version = Some f ->
    exec_prog (f c) (durable w) fs1 = (Some e, mid, fs2) ->
    iteration_spec version w (Some (Returned (Some e)))
      (after_step w (durable w) (past w) TxRolledBack mid (snd (pop fs2))
         version (Some e))
| it_setVersion_fails fs1 f mid fs2 (e : string) mid' fs3 :
    pop (faults w) = (None, fs1) ->
    index registry version = Some f ->
    exec_prog (f c) (durable w) fs1 = (None, mid, fs2) ->
    exec_prog (setVersion (version + 1)) mid fs2 = (Some e, mid', fs3) ->
    iteration_spec version w (Some (Returned (Some e)))
      (after_step w (durable w) (past w) TxOpen mid' fs3 version None)
| it_commit_fails fs1 f mid fs2 mid' fs3 (e : string) fs4 :
    pop (faults w) = (None, fs1) ->
    index registry version = Some f ->
    exec_prog (f c) (durable w) fs1 = (None, mid, fs2) ->
    exec_prog (setVersion (version + 1)) mid fs2 = (None, mid', fs3) ->
    pop fs3 = (Some e, fs4) ->
    iteration_spec version w (Some (Returned (Some e)))
      (after_step w (durable w) (past w) TxRolledBack mid' fs4 version None)
| it_commits fs1 f mid fs2 mid' fs3 fs4 :
    pop (faults w) = (None, fs1) ->
    index registry version = Some f ->
    exec_prog (f c) (durable w) fs1 = (None, mid, fs2) ->
    exec_prog (setVersion (version + 1)) mid fs2 = (None, mid', fs3) ->
    pop fs3 = (None, fs4) ->
    iteration_spec version w None
      (after_step w mid' (durable w :: past w) TxCommitted mid' fs4 version
         None).

(** The runs of [upgrade_loop]. *)
Inductive loop_spec : nat -> Z -> World -> Outcome -> World -> Prop :=
| loop_exit version w :
    loop_spec O version w (Returned None) w
| loop_return todo version w out w' :
    iteration_spec version w (Some out) w' ->
    loop_spec (S todo) version w out w'
| loop_continue todo version w w1 out w' :
    iteration_spec version w None w1 ->
    loop_spec todo (version + 1) w1 out w' ->
    loop_spec (S todo) version w out w'.

(** The loop, started at [version0] in the world [w0], comes to the head of
    its iteration [version] in the world [w]: the iterations in between fell
    through to [version++]. *)
Inductive reaches : Z -> World -> Z -> World -> Prop :=
| reaches_here version w :
    reaches version w version w
| reaches_next version0 w0 w1 version w :
    version0 < len registry ->
    upgrade_iteration registry c version0 w0 = (None, w1) ->
    reaches (version0 + 1) w1 version w ->
    reaches version0 w0 version w.

(** [next] is [prev] after one whole step and its version bump: some step
    [i] of the registry ran to the end on [prev] without error, and [next] is
    what it left, with the version row replaced by [i + 1]. *)
Definition step_commit (prev next : Store) : Prop :=
  exists (i : Z) (f : upgradeFunc) (fs : list error) (mid : Store)
         (fs' : list error),
    index registry i = Some f /\
    exec_prog (f c) prev fs = (None, mid, fs') /\
    next = mkStore (Some [VInt (i + 1)]) (schema mid).

(** How one durable state follows the one before it during [Upgrade]:
    [getVersion] created the version table and changed nothing else, or one
    whole step was committed together with its version bump. *)
Definition installed (prev next : Store) : Prop :=
  next = created prev \/ step_commit prev next.

(** [getVersion] reports the version the store holds: it either fails, or
    returns the stored version.  (It does not when the driver fails its
    [SELECT] over a store whose version is not 0.) *)
Definition reads_stored_version (w : World) : Prop :=
  snd (fst (getVersion c w)) = None ->
  fst (fst (getVersion c w)) = stored_version (durable w).

End Vocabulary.

(** ** Concrete runs *)

Definition sqlite : Container := mkContainer "sqlite3".

Definition empty_store : Store := mkStore None [].

(** A world with the durable store [s], no transaction begun yet, and a
    driver that will answer [fs]. *)
Definition world_of (s : Store) (fs : list error) : World :=
  mkWorld s [] [] fs [] [].

(** The store that the first [n] steps of [Upgrades] leave when nothing
    fails. *)
Definition store_after (n : nat) : Store :=
  durable (snd (Upgrade (firstn n Upgrades) sqlite (world_of empty_store []))).

Definition badConn : string := "driver: bad connection".

Definition tableExists : string := "table whatsmeow_device already exists".

Definition duplicateColumn : string := "duplicate column name: adv_account_sig_key".

Definition diskFull : string := "database or disk is full".

(** *** A fresh store, nothing fails *)

Definition fresh_world : World := world_of empty_store [].

Abbreviation upgraded_world := (snd (Upgrade Upgrades sqlite fresh_world)).

Abbreviation created_world := (snd (getVersion sqlite fresh_world)).

(** *** [setVersion] on an open transaction *)

(** A store at version 3 and one open transaction on it. *)
Definition small_store : Store :=
  mkStore (Some [VInt 3]) ["CREATE TABLE t (x INTEGER)"].

Definition tx_world : World :=
  mkWorld small_store [] [mkTx TxOpen small_store] [] [] [].

Abbreviation tx_world_after := (snd (run 1%nat (setVersion 4) tx_world)).

(** *** An unknown dialect *)

Definition oracle : Container := mkContainer "oracle".

(** *** The driver fails the [SELECT] of [getVersion] *)

(** A store at version 2 whose driver fails the version query, and then the
    first statement of step 0. *)
Definition misread_world : World :=
  world_of (store_after 2) [None; Some badConn; None; Some tableExists].

Abbreviation misread_created :=
  (snd (db_Exec createVersionTable [] misread_world)).

Abbreviation misread_queried :=
  (snd (db_QueryRow selectVersion misread_created)).

Abbreviation misread_after := (snd (Upgrade Upgrades sqlite misread_world)).

(** The same with the store at the latest version. *)
Definition latest_misread_world : World :=
  world_of (store_after 4) [None; Some badConn; None; Some tableExists].

Abbreviation latest_misread_after :=
  (snd (Upgrade Upgrades sqlite latest_misread_world)).

(** *** A step fails *)

(** From the empty store, the driver fails the first statement of step 1
    (its eighteenth answer). *)
Definition step1_fails_world : World :=
  world_of empty_store (repeat None 17 ++ [Some duplicateColumn]).

Abbreviation step1_fails_after :=
  (snd (Upgrade Upgrades sqlite step1_fails_world)).

Definition no_call : Call := mkCall 0 O empty_store None.

Abbreviation step1_call := (nth 1 (calls step1_fails_after) no_call).

(** *** [setVersion] fails *)

(** A store at version 3; the driver lets [Begin] and the statement of step
    3 through and fails the [DELETE] of [setVersion]. *)
Definition setVersion_fails_world : World :=
  world_of (store_after 3) [None; None; Some diskFull].

Abbreviation setVersion_fails_begun := (snd (db_Begin setVersion_fails_world)).

Abbreviation setVersion_fails_stepped :=
  (snd (invoke 3 1%nat (upgradeV4 sqlite)
          (snd (log_Infof "Upgrading database to v%d" [3 + 1]
                  setVersion_fails_begun)))).

Abbreviation setVersion_fails_after :=
  (snd (run 1%nat (setVersion (3 + 1)) setVersion_fails_stepped)).

(** *** A store at the latest version, nothing fails *)

Definition latest_world : World := world_of (store_after 4) [].

(** ** Vocabulary of errors, edges and whole runs *)

(** The driver fails none of its next [n] answers. *)
Definition quiet (n : nat) (fs : list error) : Prop :=
  forall k, (k < n)%nat -> nth k fs None = None.

(** The driver fails none of its answers. *)
Definition faultless (fs : list error) : Prop :=
  Forall (fun f => f = None) fs.

(** The calls [cs] are steps of the registry applied one after the other,
    starting on the store [s]: each call is the step [call_step] of the
    registry, run to its end without error on the store that the call before
    it left (the first one on [s]); what its transaction committed is what
    the step produced, with the version row [call_step + 1]; and [final] is
    the store that the last of them left. *)
Fixpoint applied (registry : list upgradeFunc) (c : Container) (w' : World)
    (s : Store) (cs : list Call) (final : Store) : Prop :=
  match cs with
  | [] => final = s
  | cl :: rest =>
      call_durable cl = s /\ call_result cl = None /\
      exists (f : upgradeFunc) (fs : list error) (mid : Store)
             (fs' : list error),
        index registry (call_step cl) = Some f /\
        exec_prog (f c) s fs = (None, mid, fs') /\
        lookup_tx w' (call_tx cl) =
          Some (mkTx TxCommitted
                  (mkStore (Some [VInt (call_step cl + 1)]) (schema mid))) /\
        applied registry c w'
          (mkStore (Some [VInt (call_step cl + 1)]) (schema mid)) rest final
  end.

(** The transaction was committed. *)
Definition is_committed (r : TxRec) : bool :=
  match tx_status r with
  | TxCommitted => true
  | _ => false
  end.

(** A function that sends the statements [qs] one after the other, returns
    the error of the first one that fails and nil after the last. *)
Inductive sends : list string -> TxProg -> Prop :=
| sends_nil : sends [] (Done None)
| sends_cons query args next qs :
    (forall e, next (Some e) = Done (Some e)) ->
    sends qs (next None) ->
    sends (query :: qs) (Exec query args next).

(** A statement that is none of the three on the version table. *)
Definition plain (query : string) : bool :=
  negb (query =? createVersionTable)%string &&
  negb (query =? deleteVersion)%string &&
  negb (query =? insertVersion)%string.

(** How far [n] statements get under the driver answers [fs]: the number of
    statements that went through, and the error of the one that did not. *)
Fixpoint first_failure (n : nat) (fs : list error) : nat * error :=
  match n with
  | O => (O, None)
  | S n' =>
      let (f, rest) := pop fs in
      match f with
      | Some e => (O, Some e)
      | None => let (k, err) := first_failure n' rest in (S k, err)
      end
  end.

(** The statements that the steps of [Upgrades] send, step by step, in the
    order in which they send them. *)
Definition step_statements (c : Container) (i : nat) : list string :=
  match i with
  | 0%nat =>
      [createDevice; createIdentityKeys;
       Sprintf createPreKeysFormat ["`key`"; "`key`"];
       createSessions; createSenderKeys; createAppStateSyncKeys;
       createAppStateVersion; createAppStateMutationMacs; createContacts;
       createChatSettings]
  | 1%nat =>
      [addSigKeyColumn;
       if (dialect c =? "postgres")%string || (dialect c =? "pgx")%string
       then fillSigKeyPostgres else fillSigKeySQLite]
  | 2%nat => [Sprintf createMessageSecretsFormat ["`key`"; "`key`"]]
  | 3%nat => [createPrivacyTokens]
  | _ => []
  end.

(** The statements of the steps [from], [from + 1], ..., [from + n - 1]. *)
Fixpoint pending_statements (c : Container) (from n : nat) : list string :=
  match n with
  | O => []
  | S n' => step_statements c from ++ pending_statements c (S from) n'
  end.

(** ** More concrete runs *)

(** *** The connection is lost before the first call *)

Definition connection_lost_world : World :=
  world_of empty_store [Some badConn].

(** *** A store at version 3 with a small schema *)

Definition resume_world : World := world_of small_store [].

Abbreviation resumed_world := (snd (Upgrade Upgrades sqlite resume_world)).

Abbreviation resume_begun := (snd (db_Begin resume_world)).

Abbreviation resume_versioned :=
  (snd (run 1%nat (setVersion 9) resume_begun)).

Abbreviation resume_committed := (snd (tx_Commit 1%nat resume_versioned)).

(** *** The [Commit] fails *)

(** The driver lets [Begin], the statement of step 3 and the two statements
    of [setVersion] through and fails the [Commit]. *)
Definition commit_fails_world : World :=
  world_of small_store [None; None; None; None; Some diskFull].

Abbreviation commit_fails_begun := (snd (db_Begin commit_fails_world)).

Abbreviation commit_fails_stepped :=
  (snd (invoke 3 1%nat (upgradeV4 sqlite)
          (snd (log_Infof "Upgrading database to v%d" [3 + 1]
                  commit_fails_begun)))).

Abbreviation commit_fails_versioned :=
  (snd (run 1%nat (setVersion (3 + 1)) commit_fails_stepped)).

Abbreviation commit_fails_after :=
  (snd (tx_Commit 1%nat commit_fails_versioned)).

(** *** A version below zero, and one above the latest *)

Definition negative_world : World :=
  world_of (mkStore (Some [VInt (-1)]) []) [].

Definition newer_world : World :=
  world_of (mkStore (Some [VInt 7]) ["CREATE TABLE t (x INTEGER)"]) [].

(** *** The second statement on an open transaction fails *)

Definition second_fails_world : World :=
  mkWorld small_store [] [mkTx TxOpen small_store] [None; Some diskFull] [] [].

Abbreviation second_fails_versioned :=
  (snd (run 1%nat (setVersion 4) second_fails_world)).

(** *** The step fails, and then the [Rollback] *)

(** A store at version 3; the driver lets [Begin] through and fails the
    statement of step 3 and the [Rollback] after it. *)
Definition rollback_fails_world : World :=
  world_of small_store [None; Some tableExists; Some badConn].

Abbreviation rollback_fails_begun := (snd (db_Begin rollback_fails_world)).

Abbreviation rollback_fails_stepped :=
  (snd (invoke 3 1%nat (upgradeV4 sqlite)
          (snd (log_Infof "Upgrading database to v%d" [3 + 1]
                  rollback_fails_begun)))).

Abbreviation rollback_fails_after :=
  (snd (tx_Rollback 1%nat rollback_fails_stepped)).

(** *** A second [Upgrade] after the one in which step 1 failed *)

Definition retry_world : World := world_of (durable step1_fails_after) [].

(** ** Facts about the database model *)

Section SqlFacts.

Lemma apply_delete (args : list Z) (s : Store) :
  apply_stmt deleteVersion args s =
  match version_table s with
  | None => (Some errNoVersionTable, s)
  | Some _ => (None, mkStore (Some []) (schema s))
  end.
Proof. reflexivity. Qed.

Lemma apply_insert (args : list Z) (s : Store) :
  apply_stmt insertVersion args s =
  match version_table s, args with
  | None, _ => (Some errNoVersionTable, s)
  | Some rows, [v] => (None, mkStore (Some (rows ++ [VInt v])) (schema s))
  | Some _, _ => (Some errBindArgs, s)
  end.
Proof. reflexivity. Qed.

Lemma nth_error_replace_nth {A : Type} (l : list A) (i : nat) (x y : A) :
  nth_error l i = Some y -> nth_error (replace_nth i x l) i = Some x.
Proof.
  revert i; induction l as [|h t IH]; intros [|i] H; simpl in *;
    try discriminate; auto.
Qed.

Lemma replace_nth_last {A : Type} (l : list A) (x y : A) :
  replace_nth (List.length l) x (l ++ [y]) = l ++ [x].
Proof. induction l as [|h t IH]; simpl; [reflexivity | now rewrite IH]. Qed.

Lemma nth_error_last {A : Type} (l : list A) (x : A) :
  nth_error (l ++ [x]) (List.length l) = Some x.
Proof. induction l as [|h t IH]; simpl; auto. Qed.

Lemma lookup_update (w : World) (tx : Tx) (r r0 : TxRec) :
  lookup_tx w tx = Some r0 -> lookup_tx (update_tx tx r w) tx = Some r.
Proof.
  destruct tx as [|i]; simpl; [discriminate|].
  apply nth_error_replace_nth.
Qed.

Lemma faults_update (w : World) (tx : Tx) (r : TxRec) :
  faults (update_tx tx r w) = faults w.
Proof. destruct tx; reflexivity. Qed.

(** [run] on the transaction begun last is [exec_prog] on its copy. *)
Lemma run_last (p : TxProg) :
  forall d pa ts s fs l cs,
    run (S (List.length ts)) p (mkWorld d pa (ts ++ [mkTx TxOpen s]) fs l cs) =
    let '(err, s', fs') := exec_prog p s fs in
    (err, mkWorld d pa (ts ++ [mkTx TxOpen s']) fs' l cs).
Proof.
  induction p as [err | query args next IH]; intros; simpl.
  - reflexivity.
  - unfold bind, tx_Exec. cbn [lookup_tx txs]. rewrite nth_error_last.
    cbn [faults]. destruct (pop fs) as [[e|] rest].
    + unfold set_faults; cbn. apply IH.
    + destruct (apply_stmt query args s) as [err s'].
      unfold update_tx, set_txs, set_faults; cbn.
      rewrite replace_nth_last. apply IH.
Qed.

Lemma rollback_last d pa ts s fs l cs :
  tx_Rollback (S (List.length ts)) (mkWorld d pa (ts ++ [mkTx TxOpen s]) fs l cs) =
  (fst (pop fs), mkWorld d pa (ts ++ [mkTx TxRolledBack s]) (snd (pop fs)) l cs).
Proof.
  unfold tx_Rollback. cbn [lookup_tx txs]. rewrite nth_error_last.
  cbn [faults]. destruct (pop fs) as [f rest].
  unfold update_tx, set_txs, set_faults; cbn.
  now rewrite replace_nth_last.
Qed.

Lemma commit_last d pa ts s fs l cs :
  tx_Commit (S (List.length ts)) (mkWorld d pa (ts ++ [mkTx TxOpen s]) fs l cs) =
  match pop fs with
  | (Some e, rest) => (Some e, mkWorld d pa (ts ++ [mkTx TxRolledBack s]) rest l cs)
  | (None, rest) => (None, mkWorld s (d :: pa) (ts ++ [mkTx TxCommitted s]) rest l cs)
  end.
Proof.
  unfold tx_Commit. cbn [lookup_tx txs]. rewrite nth_error_last.
  cbn [faults]. destruct (pop fs) as [[e|] rest];
    unfold install, update_tx, set_txs, set_faults; cbn;
    now rewrite replace_nth_last.
Qed.

(** A [TxProg] never touches the durable store, and leaves an open
    transaction open. *)
Lemma run_frame (p : TxProg) :
  forall tx w,
    let w' := snd (run tx p w) in
    durable w' = durable w /\ past w' = past w /\ calls w' = calls w /\
    log w' = log w /\ List.length (txs w') = List.length (txs w).
Proof.
  induction p as [err | query args next IH]; intros tx w; simpl.
  - auto.
  - unfold bind. destruct (tx_Exec tx query args w) as [err w1] eqn:E.
    specialize (IH err tx w1). simpl in IH.
    assert (F : durable w1 = durable w /\ past w1 = past w /\
                calls w1 = calls w /\ log w1 = log w /\
                List.length (txs w1) = List.length (txs w)).
    { unfold tx_Exec in E. destruct (lookup_tx w tx) as [[[| |] q]|] eqn:L;
        try (inversion E; subst; auto; fail).
      destruct (pop (faults w)) as [[e|] rest].
      - inversion E; subst; auto.
      - destruct (apply_stmt query args q) as [err' q'].
        inversion E; subst. destruct tx as [|i]; simpl; auto.
        repeat split; auto.
        clear. generalize (txs w). intros l. revert i.
        induction l as [|h t IHl]; intros [|i]; simpl; auto. }
    destruct F as (F1 & F2 & F3 & F4 & F5).
    destruct IH as (I1 & I2 & I3 & I4 & I5).
    repeat split; congruence.
Qed.

End SqlFacts.

(** ** One iteration of the loop, case by case *)

Section Iteration.

Variable registry : list upgradeFunc.
Variable c : Container.

Lemma upgrade_iteration_spec (version : Z) (w : World) :
  iteration_spec registry c version w
    (fst (upgrade_iteration registry c version w))
    (snd (upgrade_iteration registry c version w)).
Proof.
  unfold upgrade_iteration, bind, db_Begin.
  destruct (pop (faults w)) as [[e|] fs1] eqn:P; cbn [isErr ret fst snd].
  - now apply it_begin_fails.
  - destruct (index registry version) as [f|] eqn:I.
    + unfold log_Infof, invoke, set_txs, set_faults, add_log.
      cbn [durable past txs faults log calls].
      rewrite run_last.
      destruct (exec_prog (f c) (durable w) fs1) as [[[e|] mid] fs2] eqn:S1;
        unfold add_call; cbn [isErr durable past txs faults log calls].
      * rewrite rollback_last. cbn [ret fst snd].
        eapply it_step_fails; eauto.
      * rewrite run_last.
        destruct (exec_prog (setVersion (version + 1)) mid fs2)
          as [[[e|] mid'] fs3] eqn:S2; cbn [isErr ret fst snd].
        -- eapply it_setVersion_fails; eauto.
        -- rewrite commit_last.
           destruct (pop fs3) as [[e|] fs4] eqn:P3; cbn [isErr ret fst snd].
           ++ eapply it_commit_fails; eauto.
           ++ eapply it_commits; eauto.
    + cbn [ret fst snd]. unfold set_txs, set_faults.
      cbn [durable past txs faults log calls].
      now apply it_panics.
Qed.

(** [setVersion] on a transaction's copy. *)
Lemma setVersion_ok (v : Z) (s s' : Store) (fs fs' : list error) :
  exec_prog (setVersion v) s fs = (None, s', fs') ->
  s' = mkStore (Some [VInt v]) (schema s) /\ version_table s <> None.
Proof.
  unfold setVersion; cbn [exec_prog].
  destruct (pop fs) as [[e|] r1]; cbn [isErr exec_prog]; [discriminate|].
  change "DELETE FROM whatsmeow_version" with deleteVersion.
  rewrite apply_delete.
  destruct (version_table s) as [rows|] eqn:T; cbn [isErr exec_prog];
    [|discriminate].
  destruct (pop r1) as [[e|] r2]; cbn [exec_prog]; [discriminate|].
  change "INSERT INTO whatsmeow_version (version) VALUES (?)" with insertVersion.
  rewrite apply_insert. cbn.
  intros H; inversion H; subst. split; [reflexivity | discriminate].
Qed.

End Iteration.

(** ** The loop *)

Section Loop.

Variable registry : list upgradeFunc.
Variable c : Container.

(** The [for] loop as Go writes it. *)
Lemma upgrade_from_unfold (version : Z) :
  upgrade_from registry c version =
  if version <? len registry then
    r <- upgrade_iteration registry c version ;;
    match r with
    | Some out => ret out
    | None => upgrade_from registry c (version + 1)
    end
  else ret (Returned None).
Proof.
  unfold upgrade_from.
  destruct (Z.ltb_spec version (len registry)) as [H|H].
  - replace (Z.to_nat (len registry - version))
      with (S (Z.to_nat (len registry - (version + 1)))) by lia.
    reflexivity.
  - replace (Z.to_nat (len registry - version)) with O by lia.
    reflexivity.
Qed.

Lemma reaches_upgrade_from version0 w0 version w :
  reaches registry c version0 w0 version w ->
  upgrade_from registry c version0 w0 = upgrade_from registry c version w.
Proof.
  induction 1 as [v w | v0 w0 w1 v w Lt It _ IH]; [reflexivity|].
  rewrite upgrade_from_unfold.
  destruct (Z.ltb_spec v0 (len registry)); [|lia].
  unfold bind. rewrite It. exact IH.
Qed.

Lemma upgrade_loop_spec (todo : nat) :
  forall version w,
    loop_spec registry c todo version w
      (fst (upgrade_loop registry c todo version w))
      (snd (upgrade_loop registry c todo version w)).
Proof.
  induction todo as [|todo IH]; intros version w; simpl.
  - constructor.
  - unfold bind.
    pose proof (upgrade_iteration_spec registry c version w) as It.
    destruct (upgrade_iteration registry c version w) as [[out|] w1];
      simpl in It.
    + now apply loop_return.
    + eapply loop_continue; eauto.
Qed.

Lemma loop_spec_of_run todo version w out w' :
  upgrade_loop registry c todo version w = (out, w') ->
  loop_spec registry c todo version w out w'.
Proof.
  intros E. pose proof (upgrade_loop_spec todo version w) as H.
  now rewrite E in H.
Qed.

(** Inverting an iteration into its six cases, with the resulting world
    written out. *)
Ltac iteration_cases H :=
  inversion H; subst; clear H; unfold after_step, set_faults in *;
  cbn [durable past txs faults log calls states] in *.

(** Transactions are only ever added. *)
Lemma iteration_txs version w r w' :
  iteration_spec registry c version w r w' ->
  exists ts, txs w' = txs w ++ ts.
Proof.
  intros H; iteration_cases H; eauto.
  exists []; now rewrite app_nil_r.
Qed.

Lemma loop_txs todo version w out w' :
  loop_spec registry c todo version w out w' -> exists ts, txs w' = txs w ++ ts.
Proof.
  induction 1 as [v w | n v w out w' It | n v w w1 out w' It _ IH].
  - exists []; now rewrite app_nil_r.
  - eapply iteration_txs; eauto.
  - destruct (iteration_txs _ _ _ _ It) as [t1 E1].
    destruct IH as [t2 E2]. exists (t1 ++ t2).
    now rewrite E2, E1, app_assoc.
Qed.

Lemma lookup_stable (w w' : World) (tx : Tx) (r : TxRec) (ts : list TxRec) :
  txs w' = txs w ++ ts ->
  lookup_tx w tx = Some r -> lookup_tx w' tx = Some r.
Proof.
  destruct tx as [|i]; simpl; [discriminate|].
  intros E L. rewrite E, nth_error_app1; auto.
  apply nth_error_Some. congruence.
Qed.

(** *** Durable states *)

Lemma linked_snoc (R : Store -> Store -> Prop) (l : list Store) (a b : Store) :
  linked R (l ++ [a]) -> R b a -> linked R ((l ++ [a]) ++ [b]).
Proof.
  induction l as [|x l IH]; intros H Rab.
  - simpl; auto.
  - change ((x :: l) ++ [a]) with (x :: (l ++ [a])) in *.
    destruct (l ++ [a]) as [|y l'] eqn:E.
    + destruct l; discriminate.
    + simpl in H. destruct H as [H1 H2].
      change (R y x /\ linked R ((y :: l') ++ [b])). auto.
Qed.

Lemma loop_trail todo version w out w' :
  loop_spec registry c todo version w out w' ->
  exists trail,
    states w' = trail ++ states w /\
    linked (step_commit registry c) (trail ++ [durable w]).
Proof.
  induction 1 as [v w | n v w out w' It | n v w w1 out w' It _ IH].
  - exists []; simpl; auto.
  - exists []; iteration_cases It; simpl; auto.
  - destruct IH as (trail & E & L).
    iteration_cases It.
    match goal with
    | H : exec_prog (setVersion _) _ _ = _ |- _ =>
        apply setVersion_ok in H; destruct H as [-> _]
    end.
    exists (trail ++ [mkStore (Some [VInt (v + 1)]) (schema mid)]).
    unfold states in *. cbn [durable past] in *.
    rewrite E, <- app_assoc. split; [reflexivity|].
    apply linked_snoc; auto.
    exists v, f, fs1, mid, fs2; auto.
Qed.

(** *** Calls *)

Lemma loop_calls todo version w out w' :
  loop_spec registry c todo version w out w' ->
  exists cs,
    calls w' = calls w ++ cs /\
    (List.length cs <= todo)%nat /\
    map call_step cs = zseq version (List.length cs) /\
    (stored_version (durable w) = version -> Forall seen_at_own_version cs) /\
    Forall (bump_committed w') cs.
Proof.
  induction 1 as [v w | n v w out w' It | n v w w1 out w' It Lp IH].
  - exists []; simpl; rewrite app_nil_r; repeat split; auto with arith.
  - iteration_cases It;
      try (exists []; simpl; rewrite app_nil_r; repeat split; auto with arith; fail);
      (eexists [_]; split; [reflexivity|]; simpl;
       split; [lia | split; [reflexivity | split]];
       [ intros E; apply Forall_cons; [exact E | apply Forall_nil]
       | apply Forall_cons; [|apply Forall_nil]; intros p L; exfalso;
         cbn [call_tx lookup_tx txs] in L; rewrite nth_error_last in L;
         discriminate ]).
  - destruct IH as (cs & E & Len & St & Seen & Bump).
    destruct (loop_txs _ _ _ _ _ Lp) as [ts Ets].
    destruct (loop_trail _ _ _ _ _ Lp) as (trail & Etr & _).
    iteration_cases It.
    match goal with
    | H : exec_prog (setVersion _) _ _ = _ |- _ =>
        apply setVersion_ok in H; destruct H as [-> _]
    end.
    eexists (_ :: cs). rewrite E, <- app_assoc. split; [reflexivity|].
    simpl. split; [lia | split; [now rewrite St | split]].
    + intros Ev. constructor; [exact Ev|]. apply Seen. reflexivity.
    + constructor; auto.
      intros p L. cbn [call_tx call_step] in *.
      assert (L' : lookup_tx w' (S (List.length (txs w))) =
                   Some (mkTx TxCommitted (mkStore (Some [VInt (v + 1)]) (schema mid)))).
      { unfold lookup_tx. rewrite Ets. rewrite <- app_assoc.
        rewrite nth_error_app2 by lia. now rewrite Nat.sub_diag. }
      rewrite L' in L. inversion L; subst. split; [reflexivity|].
      rewrite Etr. apply in_or_app. right. now left.
Qed.

Lemma loop_success todo version w w' :
  loop_spec registry c todo version w (Returned None) w' ->
  exists cs,
    calls w' = calls w ++ cs /\
    List.length cs = todo /\
    Forall (committed_call w') cs /\
    match todo with
    | O => w' = w
    | S _ => version_table (durable w') = Some [VInt (version + Z.of_nat todo)]
    end.
Proof.
  remember (Returned None) as out eqn:Eo.
  induction 1 as [v w | n v w out w' It | n v w w1 out w' It Lp IH].
  - exists []; simpl; rewrite app_nil_r; auto.
  - subst out. iteration_cases It.
  - specialize (IH Eo).
    destruct (loop_txs _ _ _ _ _ Lp) as [ts Ets].
    iteration_cases It.
    match goal with
    | H : exec_prog (setVersion _) _ _ = _ |- _ =>
        apply setVersion_ok in H; destruct H as [-> _]
    end.
    destruct IH as (cs & E & Len & Com & Fin).
    eexists (_ :: cs). rewrite E, <- app_assoc. split; [reflexivity|].
    simpl. split; [now rewrite Len | split].
    + constructor; auto. split; [reflexivity|].
      eexists. split;
        [ cbn [call_tx]; unfold lookup_tx; rewrite Ets, <- app_assoc;
          rewrite nth_error_app2 by lia; now rewrite Nat.sub_diag
        | reflexivity ].
    + destruct n as [|n].
      * subst w'. reflexivity.
      * rewrite Fin. do 3 f_equal. lia.
Qed.

(** A loop that returns no error has applied its steps one after the other:
    each ran to its end on the store the one before it left, and the
    durable store at the end is what the last one left. *)
Lemma loop_applied todo version w w' :
  loop_spec registry c todo version w (Returned None) w' ->
  exists cs,
    calls w' = calls w ++ cs /\
    applied registry c w' (durable w) cs (durable w').
Proof.
  remember (Returned None) as out eqn:Eo.
  induction 1 as [v w | n v w out w' It | n v w w1 out w' It Lp IH].
  - exists []. rewrite app_nil_r. split; reflexivity.
  - subst out. iteration_cases It.
  - specialize (IH Eo).
    destruct (loop_txs _ _ _ _ _ Lp) as [ts Ets].
    iteration_cases It.
    match goal with
    | H : exec_prog (setVersion _) _ _ = _ |- _ =>
        apply setVersion_ok in H; destruct H as [-> _]
    end.
    destruct IH as (cs & E & Ap).
    eexists (_ :: cs). rewrite E, <- app_assoc. split; [reflexivity|].
    cbn [applied call_durable call_result call_step call_tx].
    split; [reflexivity|]. split; [reflexivity|].
    exists f, fs1, mid, fs2.
    split; [assumption|]. split; [assumption|]. split; [|exact Ap].
    unfold lookup_tx. rewrite Ets, <- app_assoc.
    rewrite nth_error_app2 by lia. now rewrite Nat.sub_diag.
Qed.

Lemma loop_failed_step todo version w out w' :
  loop_spec registry c todo version w out w' ->
  forall cs, calls w' = calls w ++ cs ->
  forall cl e, In cl cs -> call_result cl = Some e ->
    out = Returned (Some e) /\
    (exists pre, cs = pre ++ [cl] /\ Forall (committed_call w') pre) /\
    durable w' = call_durable cl /\
    exists p, lookup_tx w' (call_tx cl) = Some (mkTx TxRolledBack p).
Proof.
  induction 1 as [v w | n v w out w' It | n v w w1 out w' It Lp IH];
    intros cs Ecs cl e Hin Hres.
  - rewrite <- (app_nil_r (calls w)) in Ecs at 1.
    apply app_inv_head in Ecs. subst cs. destruct Hin.
  - iteration_cases It;
      try (rewrite <- (app_nil_r (calls w)) in Ecs at 1;
           apply app_inv_head in Ecs; subst cs; destruct Hin; fail);
      apply app_inv_head in Ecs; subst cs;
      destruct Hin as [<-|[]]; cbn [call_result] in Hres;
      try discriminate.
    inversion Hres; subst. repeat split.
    + exists []. split; [reflexivity | constructor].
    + eexists. cbn [call_tx lookup_tx txs]. apply nth_error_last.
  - destruct (loop_txs _ _ _ _ _ Lp) as [ts Ets].
    destruct (loop_calls _ _ _ _ _ Lp) as (cs1 & E1 & _).
    iteration_cases It.
    match goal with
    | H : exec_prog (setVersion _) _ _ = _ |- _ =>
        apply setVersion_ok in H; destruct H as [-> _]
    end.
    rewrite E1, <- app_assoc in Ecs. apply app_inv_head in Ecs. subst cs.
    destruct Hin as [<-|Hin]; [discriminate|].
    destruct (IH cs1 E1 cl e Hin Hres) as (Ho & (pre & Epre & Cpre) & Hd & Hp).
    split; [exact Ho|]. split; [|split; [exact Hd | exact Hp]].
    eexists (_ :: pre). split; [simpl; now rewrite Epre|].
    constructor; auto. split; [reflexivity|].
    eexists. split;
      [ cbn [call_tx]; unfold lookup_tx; rewrite Ets, <- app_assoc;
        rewrite nth_error_app2 by lia; now rewrite Nat.sub_diag
      | reflexivity ].
Qed.

End Loop.

(** ** [getVersion] *)

Section GetVersion.

Variable c : Container.

Lemma stored_version_created (s : Store) :
  stored_version (created s) = stored_version s.
Proof.
  unfold created, stored_version.
  destruct (version_table s) eqn:E; simpl; rewrite ?E; reflexivity.
Qed.

(** [getVersion] by the driver's answers to its two statements. *)
Lemma getVersion_eq (w : World) :
  getVersion c w =
  match pop (faults w) with
  | (Some e, r1) => ((-1, Some e), set_faults r1 w)
  | (None, r1) =>
      let w1 := install (created (durable w)) (set_faults r1 w) in
      match pop r1 with
      | (Some e, r2) => ((0, None), set_faults r2 w1)
      | (None, r2) => ((stored_version (durable w), None), set_faults r2 w1)
      end
  end.
Proof.
  destruct w as [[vt sc] pa ts fs l cs].
  destruct fs as [|[e1|] [|[e2|] rest]];
    destruct vt as [[|[z| |o] rows]|]; reflexivity.
Qed.

Lemma getVersion_frame (w : World) :
  let w1 := snd (getVersion c w) in
  calls w1 = calls w /\ txs w1 = txs w /\ log w1 = log w /\
  stored_version (durable w1) = stored_version (durable w) /\
  schema (durable w1) = schema (durable w).
Proof.
  rewrite getVersion_eq.
  destruct (pop (faults w)) as [[e|] r1]; simpl.
  - auto.
  - destruct (pop r1) as [[e|] r2]; simpl;
      rewrite stored_version_created; unfold created;
      destruct (version_table (durable w)); auto.
Qed.

(** A [getVersion] that returns no error leaves the store with the version
    table created, and otherwise as it was. *)
Lemma getVersion_created (w : World) (v : Z) :
  fst (getVersion c w) = (v, None) ->
  durable (snd (getVersion c w)) = created (durable w).
Proof.
  rewrite getVersion_eq.
  destruct (pop (faults w)) as [[e|] r1]; [discriminate|].
  destruct (pop r1) as [[e|] r2]; reflexivity.
Qed.

End GetVersion.

(** ** [Upgrade] as [getVersion] followed by the loop *)

Lemma Upgrade_spec registry c w out w' :
  Upgrade registry c w = (out, w') ->
  (exists e, fst (getVersion c w) = (-1, Some e) /\
             out = Returned (Some e) /\ w' = snd (getVersion c w)) \/
  (exists version, fst (getVersion c w) = (version, None) /\
     loop_spec registry c (Z.to_nat (len registry - version)) version
       (snd (getVersion c w)) out w').
Proof.
  unfold Upgrade, bind. rewrite (getVersion_eq c w).
  destruct (pop (faults w)) as [[e|] r1]; cbn [isErr ret fst snd].
  - intros H; inversion H; subst. left. eauto.
  - destruct (pop r1) as [[e|] r2]; cbn [isErr ret fst snd]; intros H;
      right; eexists; (split; [reflexivity|]);
      now apply loop_spec_of_run.
Qed.

(** ** The version store *)

(** [run] on any open transaction is [exec_prog] on its copy. *)
Lemma run_open (p : TxProg) :
  forall tx w s,
    lookup_tx w tx = Some (mkTx TxOpen s) ->
    fst (run tx p w) = fst (fst (exec_prog p s (faults w))) /\
    lookup_tx (snd (run tx p w)) tx =
      Some (mkTx TxOpen (snd (fst (exec_prog p s (faults w))))) /\
    faults (snd (run tx p w)) = snd (exec_prog p s (faults w)).
Proof.
  induction p as [err | query args next IH]; intros tx w s L.
  - simpl. auto.
  - cbn [run exec_prog]. unfold bind, tx_Exec. rewrite L.
    destruct (pop (faults w)) as [[e|] rest].
    + apply (IH (Some e) tx (set_faults rest w) s). exact L.
    + destruct (apply_stmt query args s) as [err s1].
      specialize (IH err tx (update_tx tx (mkTx TxOpen s1) (set_faults rest w)) s1).
      rewrite faults_update in IH. apply IH.
      eapply lookup_update. exact L.
Qed.

(** On a transaction that is not open, [setVersion] fails at once. *)
Lemma setVersion_not_open (tx : Tx) (v : Z) (w : World) :
  (forall s, lookup_tx w tx <> Some (mkTx TxOpen s)) ->
  run tx (setVersion v) w = (Some ErrTxDone, w).
Proof.
  intros N. unfold setVersion. cbn [run]. unfold bind, tx_Exec.
  destruct (lookup_tx w tx) as [[[| |] s]|] eqn:L; try reflexivity.
  now destruct (N s).
Qed.

(** With the table in place and a driver that does not fail, [setVersion]
    succeeds. *)
Lemma setVersion_succeeds (v : Z) (s : Store) :
  version_table s <> None ->
  exec_prog (setVersion v) s [] = (None, mkStore (Some [VInt v]) (schema s), []).
Proof.
  intros T. unfold setVersion. cbn [exec_prog pop].
  change "DELETE FROM whatsmeow_version" with deleteVersion.
  rewrite apply_delete.
  destruct (version_table s) as [rows|]; [reflexivity | now destruct T].
Qed.

(** C6.  Whatever the version table of the transaction held before (no row,
    one row, several rows), a [setVersion tx v] that returns no error leaves
    it with exactly one row, holding [v]; the schema, the durable store and
    the transaction's being open are untouched.  [setVersion] is the
    [DELETE] of all rows followed, when that went through, by the [INSERT]
    of [v]. *)
Theorem setVersion_leaves_exactly_one_row :
  forall (tx : Tx) (v : Z) (w w' : World),
    run tx (setVersion v) w = (None, w') ->
    (exists (p : Store) (rows : list Cell),
       lookup_tx w tx = Some (mkTx TxOpen p) /\
       version_table p = Some rows /\
       lookup_tx w' tx =
         Some (mkTx TxOpen (mkStore (Some [VInt v]) (schema p))) /\
       durable w' = durable w) /\
    setVersion v =
      Exec deleteVersion []
        (fun err =>
           if isErr err then Done err
           else Exec insertVersion [v] (fun err' => Done err')).
Proof.
  intros tx v w w' R. split; [|reflexivity].
  destruct (lookup_tx w tx) as [[[| |] p]|] eqn:L;
    try (rewrite setVersion_not_open in R;
         [discriminate | intros s; rewrite L; discriminate]).
  destruct (run_open (setVersion v) tx w p L) as (E1 & E2 & _).
  pose proof (run_frame (setVersion v) tx w) as (D & _).
  rewrite R in E1, E2, D. cbn [fst snd] in E1, E2, D.
  destruct (exec_prog (setVersion v) p (faults w)) as [[err s'] fs'] eqn:X.
  cbn [fst snd] in E1, E2. subst err.
  apply setVersion_ok in X. destruct X as [-> T].
  destruct (version_table p) as [rows|] eqn:VT; [|now destruct T].
  exists p, rows. auto.
Qed.

(** C5, as the code has it.  When the [CREATE TABLE IF NOT EXISTS] statement
    is not failed by the driver, [getVersion] returns no error; on a store
    without version table it returns 0 and leaves the table created with no
    row in it; on a store that has the table it leaves the store as it was;
    and on a table without rows it returns 0. *)
Theorem getVersion_creates_table_without_row :
  forall (c : Container) (w : World) (v : Z) (err : error) (w' : World),
    fst (pop (faults w)) = None ->
    getVersion c w = ((v, err), w') ->
    err = None /\
    (version_table (durable w) = None ->
       v = 0 /\ durable w' = mkStore (Some []) (schema (durable w))) /\
    (version_table (durable w) <> None -> durable w' = durable w) /\
    (version_table (durable w) = Some [] -> v = 0).
Proof.
  intros c w v err w' F G. rewrite getVersion_eq in G.
  destruct (pop (faults w)) as [[e|] r1]; [discriminate|].
  unfold created, stored_version in G.
  destruct (pop r1) as [[e|] r2]; cbn in G; inversion G; subst;
    (split; [reflexivity|]);
    destruct (version_table (durable w)) as [[|cell rows]|];
    repeat split; try congruence; try reflexivity;
    intros; congruence.
Qed.

(** C10.  Once the version table is there, every failure of reading the
    version is dropped: whenever [Scan] on the row that [QueryRow] returned
    reports an error (the query failed, there is no row, or the row does not
    hold an integer), [getVersion] returns version 0 and no error. *)
Theorem getVersion_ignores_read_failure :
  forall (c : Container) (w w1 w2 : World) (row : Row) (e : string),
    db_Exec createVersionTable [] w = (None, w1) ->
    db_QueryRow selectVersion w1 = (Some row, w2) ->
    snd (Row_Scan row 0) = Some e ->
    getVersion c w = ((0, None), w2).
Proof.
  intros c w w1 w2 row e C Q S.
  unfold getVersion, bind.
  change "CREATE TABLE IF NOT EXISTS whatsmeow_version (version INTEGER)"
    with createVersionTable.
  change "SELECT version FROM whatsmeow_version LIMIT 1" with selectVersion.
  rewrite C. cbn [isErr]. rewrite Q. unfold ret. do 2 f_equal.
  unfold Row_Scan in *.
  destruct (row_err row); [reflexivity|].
  destruct (row_cell row) as [[z| |o]|]; try reflexivity.
  discriminate.
Qed.

(** ** Dialects *)

(** C4, as the code has it.  [upgradeV2] knows two dialect names; under
    "postgres" and "pgx" it runs the Postgres backfill, and under every
    other dialect the SQLite backfill.  It has no error of its own for a
    dialect: an error it returns is the failure of one of its (at most two)
    statements, as the driver reported it. *)
Theorem upgradeV2_falls_back_to_sqlite :
  forall (container : Container) (s : Store) (fs : list error),
    let '(err, s', _) := exec_prog (upgradeV2 container) s fs in
    (err = None ->
       (dialect container = "postgres" \/ dialect container = "pgx") ->
       schema s' = schema s ++ [addSigKeyColumn; fillSigKeyPostgres]) /\
    (err = None ->
       dialect container <> "postgres" -> dialect container <> "pgx" ->
       schema s' = schema s ++ [addSigKeyColumn; fillSigKeySQLite]) /\
    (forall e, err = Some e -> In (Some e) (firstn 2 fs)).
Proof.
  intros [d] s fs. unfold upgradeV2. cbn [dialect].
  destruct (String.eqb_spec d "postgres") as [P|P];
    destruct (String.eqb_spec d "pgx") as [X|X];
    destruct fs as [|[e1|] [|[e2|] rest]]; cbn;
    rewrite <- ?app_assoc; cbn;
    (repeat split; intros; try discriminate; try reflexivity;
     try tauto; try congruence;
     try (match goal with H : Some _ = Some _ |- _ => inversion H; subst end;
          auto)).
  all: try (destruct H0; congruence).
Qed.

(** ** The upgrade engine *)

Section Engine.

Variable registry : list upgradeFunc.
Variable c : Container.

Lemma reads_ok_stored (w : World) : reads_ok w -> reads_stored_version c w.
Proof.
  intros [F1 F2] _. rewrite getVersion_eq.
  destruct (pop (faults w)) as [[e|] r1]; [discriminate|].
  cbn [fst snd] in F2. destruct (pop r1) as [[e|] r2]; [discriminate|].
  reflexivity.
Qed.

Lemma getVersion_reads (w : World) (v : Z) :
  fst (getVersion c w) = (v, None) ->
  (v = 0 \/ v = stored_version (durable w)) /\
  version_table (durable (snd (getVersion c w))) <> None.
Proof.
  rewrite getVersion_eq.
  destruct (pop (faults w)) as [[e|] r1]; [discriminate|].
  assert (T : version_table (created (durable w)) <> None).
  { unfold created. destruct (version_table (durable w)) eqn:E;
      [rewrite E|]; discriminate. }
  destruct (pop r1) as [[e|] r2]; cbn; intros H; inversion H; auto.
Qed.

Lemma getVersion_states (w : World) :
  states (snd (getVersion c w)) = states w \/
  states (snd (getVersion c w)) = created (durable w) :: states w.
Proof.
  rewrite getVersion_eq.
  destruct (pop (faults w)) as [[e|] r1]; [now left|].
  destruct (pop r1) as [[e|] r2]; now right.
Qed.

Lemma linked_weaken (R R' : Store -> Store -> Prop) (l : list Store) :
  (forall a b, R a b -> R' a b) -> linked R l -> linked R' l.
Proof.
  intros Sub. induction l as [|x l IH]; simpl; auto.
  destruct l as [|y l]; auto.
  intros [H1 H2]. split; auto.
Qed.

Lemma linked_app (R : Store -> Store -> Prop) (l1 l2 : list Store) (a : Store) :
  linked R (l1 ++ [a]) -> linked R (a :: l2) -> linked R (l1 ++ a :: l2).
Proof.
  induction l1 as [|x l1 IH]; intros H1 H2.
  - exact H2.
  - change ((x :: l1) ++ [a]) with (x :: (l1 ++ [a])) in H1.
    change ((x :: l1) ++ a :: l2) with (x :: (l1 ++ a :: l2)).
    destruct l1 as [|y l1].
    + simpl in *. destruct H1 as [H1 _]. auto.
    + simpl in H1. destruct H1 as [H1 H3].
      change (R y x /\ linked R ((y :: l1) ++ a :: l2)). split; auto.
Qed.

(** C1.  Every durable state that a call of [Upgrade] installs, whatever the
    driver fails and however the call ends, comes from the durable state
    before it in one of two ways: by the creation of the version table in
    [getVersion], or as the result of one step [i] run to its end without
    error together with the version row [i + 1].  No durable state holds a
    step's statements without its version, or the version without them. *)
Theorem upgrade_commits_step_and_version_together :
  forall w : World,
    exists trail : list Store,
      states (snd (Upgrade registry c w)) = trail ++ states w /\
      linked (installed registry c) (trail ++ [durable w]).
Proof.
  intros w.
  destruct (Upgrade registry c w) as [out w'] eqn:U. cbn [snd].
  assert (G : exists t1, states (snd (getVersion c w)) = t1 ++ states w /\
                         linked (installed registry c) (t1 ++ [durable w])).
  { destruct (getVersion_states w) as [E|E].
    - exists []. simpl. auto.
    - exists [created (durable w)]. rewrite E. simpl.
      repeat split. now left. }
  destruct G as (t1 & E1 & L1).
  destruct (Upgrade_spec _ _ _ _ _ U) as [(e & _ & _ & ->)|(v & _ & Lp)].
  - exists t1; auto.
  - destruct (loop_trail _ _ _ _ _ _ _ Lp) as (trail & E & L).
    exists (trail ++ t1). rewrite E, E1, app_assoc. split; [reflexivity|].
    apply (linked_weaken _ (installed registry c)) in L; [|now right].
    unfold states in E1. destruct t1 as [|x t1].
    + rewrite app_nil_r. cbn [app] in E1. injection E1 as D P.
      rewrite D in L. exact L.
    + cbn [app] in E1. injection E1 as D P. rewrite D in L.
      rewrite <- app_assoc. apply linked_app; assumption.
Qed.

(** The calls of one [Upgrade]: consecutive steps from the version that
    [getVersion] returned. *)
Lemma upgrade_calls (w : World) (out : Outcome) (w' : World) :
  Upgrade registry c w = (out, w') ->
  exists cs,
    calls w' = calls w ++ cs /\
    map call_step cs = zseq (fst (fst (getVersion c w))) (List.length cs) /\
    Forall (bump_committed w') cs /\
    (reads_stored_version c w ->
       Forall seen_at_own_version cs /\
       map call_step cs = zseq (stored_version (durable w)) (List.length cs)).
Proof.
  intros U.
  destruct (getVersion_frame c w) as (Fc & _ & _ & Fv & _).
  destruct (Upgrade_spec _ _ _ _ _ U) as [(e & _ & _ & ->)|(v & G & Lp)].
  - exists []. rewrite Fc, app_nil_r. repeat split; constructor.
  - destruct (loop_calls _ _ _ _ _ _ _ Lp) as (cs & E & _ & St & Seen & Bump).
    exists cs. rewrite <- Fc, G. cbn [fst].
    split; [exact E|]. split; [exact St|]. split; [exact Bump|].
    intros Rd. unfold reads_stored_version in Rd. rewrite G in Rd.
    specialize (Rd eq_refl). cbn [fst] in Rd.
    split; [apply Seen|]; congruence.
Qed.

(** C2.  On a store at version 0 (no version table, no row, or a first row
    that reads as 0), a call of [Upgrade] that returns no error has applied
    the steps 0, 1, ..., N-1 of the registry in this order, each once: step
    [i] was run to its end without error on the store that step [i - 1]
    left (step 0 on the store with the version table created), while the
    durable store was at version [i]; its transaction was committed with
    what the step produced and the version row [i + 1]; and the durable
    store at the end is the one that step N-1 left, at version N. *)
Theorem upgrade_fresh_store_runs_every_step_once :
  forall w w' : World,
    stored_version (durable w) = 0 ->
    Upgrade registry c w = (Returned None, w') ->
    stored_version (durable w') = len registry /\
    exists cs : list Call,
      calls w' = calls w ++ cs /\
      map call_step cs = zseq 0 (List.length registry) /\
      Forall seen_at_own_version cs /\
      Forall (committed_call w') cs /\
      applied registry c w' (created (durable w)) cs (durable w').
Proof.
  intros w w' V0 U.
  destruct (getVersion_frame c w) as (Fc & _ & _ & Fv & _).
  destruct (Upgrade_spec _ _ _ _ _ U) as [(e & _ & D & _)|(v & G & Lp)];
    [discriminate|].
  destruct (getVersion_reads _ _ G) as [V _].
  assert (v = 0) by (destruct V; congruence). subst v.
  replace (Z.to_nat (len registry - 0)) with (List.length registry) in Lp
    by (unfold len; lia).
  destruct (loop_success _ _ _ _ _ _ Lp) as (cs & E & Len & Com & Fin).
  destruct (loop_calls _ _ _ _ _ _ _ Lp) as (cs' & E' & _ & St & Seen & _).
  rewrite E in E'. apply app_inv_head in E'. subst cs'.
  destruct (loop_applied _ _ _ _ _ _ Lp) as (cs' & E' & Ap).
  rewrite E in E'. apply app_inv_head in E'. subst cs'.
  assert (Dc : durable (snd (getVersion c w)) = created (durable w))
    by (apply (getVersion_created c w 0); exact G).
  rewrite Dc in Ap.
  split.
  - unfold len. destruct (List.length registry) as [|n] eqn:N.
    + subst w'. rewrite Fv. exact V0.
    + unfold stored_version. rewrite Fin. reflexivity.
  - exists cs. rewrite <- Fc.
    split; [exact E|]. split; [now rewrite <- Len|].
    split; [apply Seen; congruence|]. split; [exact Com | exact Ap].
Qed.

(** C9, as the code has it.  In every execution of [Upgrade], however it
    ends, the steps invoked are consecutive, in ascending order, from the
    version that [getVersion] returned, and a step [i] whose transaction was
    committed made the version [i + 1] durable.  In the executions in which
    [getVersion] returned the version the store holds, each step [i] is
    invoked while the durable store is at version [i]. *)
Theorem upgrade_invokes_steps_in_order :
  forall (w : World) (out : Outcome) (w' : World),
    Upgrade registry c w = (out, w') ->
    exists cs : list Call,
      calls w' = calls w ++ cs /\
      map call_step cs = zseq (fst (fst (getVersion c w))) (List.length cs) /\
      Forall (bump_committed w') cs /\
      (reads_stored_version c w -> Forall seen_at_own_version cs).
Proof.
  intros w out w' U.
  destruct (upgrade_calls _ _ _ U) as (cs & E & St & Bump & Rd).
  exists cs. repeat split; auto. intros H. now apply Rd.
Qed.

(** C3, as the code has it.  When a step invoked by [Upgrade] returns an
    error, [Upgrade] returns that very error at once (the failed call is the
    last one), the step's transaction is rolled back, and the durable store
    is the one the step was invoked on, so that the steps before it stay
    committed.  When [getVersion] returned the version the store holds, that
    version is still the index [k] of the failed step, and a later [Upgrade]
    on this store whose [getVersion] does so again invokes step [k] first. *)
Theorem failed_step_is_rolled_back_and_retried :
  forall (w : World) (out : Outcome) (w' : World) (cs : list Call)
         (cl : Call) (e : string),
    Upgrade registry c w = (out, w') ->
    calls w' = calls w ++ cs ->
    In cl cs ->
    call_result cl = Some e ->
    out = Returned (Some e) /\
    (exists p, lookup_tx w' (call_tx cl) = Some (mkTx TxRolledBack p)) /\
    durable w' = call_durable cl /\
    (exists pre, cs = pre ++ [cl] /\ Forall (committed_call w') pre) /\
    (reads_stored_version c w ->
       stored_version (durable w') = call_step cl /\
       forall (w2 : World) (out2 : Outcome) (w2' : World),
         durable w2 = durable w' ->
         reads_stored_version c w2 ->
         Upgrade registry c w2 = (out2, w2') ->
         exists cs2,
           calls w2' = calls w2 ++ cs2 /\
           map call_step cs2 = zseq (call_step cl) (List.length cs2)).
Proof.
  intros w out w' cs cl e U Ecs Hin Hres.
  destruct (getVersion_frame c w) as (Fc & _ & _ & Fv & _).
  destruct (upgrade_calls _ _ _ U) as (cs0 & E0 & _ & _ & Seen).
  rewrite Ecs in E0. apply app_inv_head in E0. subst cs0.
  destruct (Upgrade_spec _ _ _ _ _ U) as [(e' & _ & _ & ->)|(v & G & Lp)].
  - rewrite Fc in Ecs. rewrite <- (app_nil_r (calls w)) in Ecs at 1.
    apply app_inv_head in Ecs. subst cs. destruct Hin.
  - rewrite <- Fc in Ecs.
    destruct (loop_failed_step _ _ _ _ _ _ _ Lp cs Ecs cl e Hin Hres)
      as (Ho & Hpre & Hd & Hp).
    split; [exact Ho|]. split; [exact Hp|]. split; [exact Hd|].
    split; [exact Hpre|].
    intros Rd. destruct (Seen Rd) as [Sn _].
    assert (Hv : stored_version (durable w') = call_step cl).
    { rewrite Hd. rewrite Forall_forall in Sn. now apply Sn. }
    split; [exact Hv|].
    intros w2 out2 w2' D2 Rd2 U2.
    destruct (upgrade_calls _ _ _ U2) as (cs2 & E2 & _ & _ & S2).
    exists cs2. split; auto. destruct (S2 Rd2) as [_ Z2].
    now rewrite <- Hv, <- D2.
Qed.

Lemma upgrade_noop (w : World) :
  reads_ok w ->
  version_table (durable w) <> None ->
  len registry <= stored_version (durable w) ->
  exists w',
    Upgrade registry c w = (Returned None, w') /\
    durable w' = durable w /\ txs w' = txs w /\
    calls w' = calls w /\ log w' = log w.
Proof.
  intros [F1 F2] T L. unfold Upgrade, bind. rewrite getVersion_eq.
  destruct (pop (faults w)) as [[e|] r1]; [discriminate|].
  cbn [fst snd] in F2. destruct (pop r1) as [[e|] r2]; [discriminate|].
  cbn [isErr]. unfold upgrade_from.
  replace (Z.to_nat (len registry - stored_version (durable w))) with O by lia.
  eexists. split; [reflexivity|]. cbn.
  unfold created. destruct (version_table (durable w)); [auto | now destruct T].
Qed.

Lemma upgrade_success_reaches_latest (w0 w : World) :
  reads_ok w0 ->
  Upgrade registry c w0 = (Returned None, w) ->
  version_table (durable w) <> None /\
  len registry <= stored_version (durable w).
Proof.
  intros Rd U.
  destruct (Upgrade_spec _ _ _ _ _ U) as [(e & _ & D & _)|(v & G & Lp)];
    [discriminate|].
  destruct (getVersion_frame c w0) as (_ & _ & _ & Fv & _).
  destruct (getVersion_reads _ _ G) as [_ T].
  pose proof (reads_ok_stored _ Rd) as Rs. unfold reads_stored_version in Rs.
  rewrite G in Rs. specialize (Rs eq_refl). cbn [fst] in Rs. subst v.
  destruct (loop_success _ _ _ _ _ _ Lp) as (cs & _ & _ & _ & Fin).
  destruct (Z.to_nat (len registry - stored_version (durable w0)))
    as [|n] eqn:N.
  - subst w. split; [exact T|]. rewrite Fv. lia.
  - split; [rewrite Fin; discriminate|].
    unfold stored_version at 1. rewrite Fin. lia.
Qed.

(** C8, as the code has it.  When the driver fails neither statement of
    [getVersion], a call of [Upgrade] on a store whose version is the length
    of the registry, and so also a call that directly follows a successful
    one of the same kind, returns no error, invokes no step, begins no
    transaction and leaves the durable store as it is. *)
Theorem upgrade_at_latest_version_is_noop :
  forall w : World,
    reads_ok w ->
    (version_table (durable w) <> None /\
     stored_version (durable w) = len registry) \/
    (exists w0, reads_ok w0 /\ Upgrade registry c w0 = (Returned None, w)) ->
    exists w',
      Upgrade registry c w = (Returned None, w') /\
      durable w' = durable w /\ txs w' = txs w /\
      calls w' = calls w /\ log w' = log w.
Proof.
  intros w Rd [[T V]|[w0 [Rd0 U]]].
  - apply upgrade_noop; auto. lia.
  - destruct (upgrade_success_reaches_latest _ _ Rd0 U) as [T L].
    now apply upgrade_noop.
Qed.

(** C7.  When, in an iteration of the loop, the transaction was begun and
    the step returned no error but [setVersion] fails with [e], the loop
    returns [e] there and then; nothing was committed (the durable store and
    its history are those from before the iteration), and the transaction is
    left open, neither committed nor rolled back.  So [Upgrade] returns [e]
    whenever its loop comes to such an iteration. *)
Theorem setVersion_failure_commits_nothing :
  forall (version : Z) (w w1 w2 w3 : World) (tx : Tx)
         (migrateFunc : upgradeFunc) (e : string),
    version < len registry ->
    db_Begin w = ((tx, None), w1) ->
    index registry version = Some migrateFunc ->
    invoke version tx (migrateFunc c)
      (snd (log_Infof "Upgrading database to v%d" [version + 1] w1))
      = (None, w2) ->
    run tx (setVersion (version + 1)) w2 = (Some e, w3) ->
    upgrade_from registry c version w = (Returned (Some e), w3) /\
    durable w3 = durable w /\ past w3 = past w /\
    (exists p, lookup_tx w3 tx = Some (mkTx TxOpen p)) /\
    (forall (w0 : World) (version0 : Z) (wl : World),
       getVersion c w0 = ((version0, None), wl) ->
       reaches registry c version0 wl version w ->
       Upgrade registry c w0 = (Returned (Some e), w3)).
Proof.
  intros version w w1 w2 w3 tx f e Lt B I Inv Sv.
  assert (Run : upgrade_from registry c version w = (Returned (Some e), w3)).
  { rewrite upgrade_from_unfold.
    destruct (Z.ltb_spec version (len registry)); [|lia].
    unfold bind, upgrade_iteration, bind. rewrite B. cbn [isErr]. rewrite I.
    unfold log_Infof in *. cbn [snd] in Inv. rewrite Inv. cbn [isErr].
    rewrite Sv. reflexivity. }
  split; [exact Run|].
  unfold db_Begin in B. destruct (pop (faults w)) as [[e0|] fs1];
    [discriminate|]. injection B as <- <-.
  unfold invoke, log_Infof in Inv. cbn [snd] in Inv.
  set (wl := add_log _ _) in Inv.
  assert (L1 : lookup_tx wl (S (List.length (txs w))) =
               Some (mkTx TxOpen (durable w))).
  { subst wl. cbn [lookup_tx add_log set_txs set_faults txs].
    apply nth_error_last. }
  destruct (run_open (f c) _ _ _ L1) as (_ & L2 & _).
  pose proof (run_frame (f c) (S (List.length (txs w))) wl) as (D2 & P2 & _).
  destruct (run (S (List.length (txs w))) (f c) wl) as [r wr].
  injection Inv as -> <-. cbn [snd] in L2, D2, P2.
  set (wc := add_call _ wr) in *.
  assert (L3 : lookup_tx wc (S (List.length (txs w))) =
               Some (mkTx TxOpen (snd (fst (exec_prog (f c) (durable w) (faults wl)))))).
  { exact L2. }
  destruct (run_open (setVersion (version + 1)) _ _ _ L3) as (_ & L4 & _).
  pose proof (run_frame (setVersion (version + 1)) (S (List.length (txs w))) wc)
    as (D4 & P4 & _).
  rewrite Sv in L4, D4, P4. cbn [snd] in L4, D4, P4.
  repeat split.
  - rewrite D4. subst wc. cbn [durable add_call]. rewrite D2. reflexivity.
  - rewrite P4. subst wc. cbn [past add_call]. rewrite P2. reflexivity.
  - eauto.
  - intros w0 v0 ws G Re. unfold Upgrade, bind. rewrite G. cbn [isErr].
    rewrite (reaches_upgrade_from _ _ _ _ _ _ Re). exact Run.
Qed.

End Engine.

(** ** The theorems on concrete runs *)

(** A run is its result paired with the world it leaves. *)
Lemma run_result {A B : Type} (p : A * B) (a : A) :
  fst p = a -> p = (a, snd p).
Proof. destruct p as [x y]; simpl; intros ->; reflexivity. Qed.

Lemma upgrade_fresh_store_witness :
  (stored_version (durable fresh_world) = 0 /\
   Upgrade Upgrades sqlite fresh_world = (Returned None, upgraded_world)) /\
  (stored_version (durable upgraded_world) = len Upgrades /\
   exists cs : list Call,
     calls upgraded_world = calls fresh_world ++ cs /\
     map call_step cs = zseq 0 (List.length Upgrades) /\
     Forall seen_at_own_version cs /\
     Forall (committed_call upgraded_world) cs /\
     applied Upgrades sqlite upgraded_world (created (durable fresh_world)) cs
       (durable upgraded_world)) /\
  schema (durable upgraded_world) = pending_statements sqlite 0 4.
Proof.
  assert (H1 : stored_version (durable fresh_world) = 0)
    by (vm_compute; reflexivity).
  assert (F : fst (Upgrade Upgrades sqlite fresh_world) = Returned None)
    by (vm_compute; reflexivity).
  pose proof (run_result _ _ F) as H2.
  split; [split; [exact H1 | exact H2]|].
  split; [|vm_compute; reflexivity].
  exact (upgrade_fresh_store_runs_every_step_once Upgrades sqlite
           fresh_world upgraded_world H1 H2).
Defined.

Lemma getVersion_creates_table_witness :
  (fst (pop (faults fresh_world)) = None /\
   getVersion sqlite fresh_world = ((0, None), created_world)) /\
  @None string = None /\
  (version_table (durable fresh_world) = None ->
     0 = 0 /\
     durable created_world = mkStore (Some []) (schema (durable fresh_world))) /\
  (version_table (durable fresh_world) <> None ->
     durable created_world = durable fresh_world) /\
  (version_table (durable fresh_world) = Some [] -> 0 = 0).
Proof.
  assert (H1 : fst (pop (faults fresh_world)) = None)
    by (vm_compute; reflexivity).
  assert (F : fst (getVersion sqlite fresh_world) = (0, None))
    by (vm_compute; reflexivity).
  pose proof (run_result _ _ F) as H2.
  split; [split; [exact H1 | exact H2]|].
  exact (getVersion_creates_table_without_row sqlite fresh_world 0 None
           created_world H1 H2).
Defined.

(** C5 as stated fails: after [getVersion] on a store without version table
    the table is there, and it holds no row, not one. *)
Lemma getVersion_fresh_store_has_no_row :
  version_table (durable fresh_world) = None /\
  fst (getVersion sqlite fresh_world) = (0, None) /\
  version_table (durable created_world) = Some [] /\
  ~ (exists row, version_table (durable created_world) = Some [row]).
Proof.
  split; [vm_compute; reflexivity|]. split; [vm_compute; reflexivity|].
  split; [vm_compute; reflexivity|].
  intros [row H]. vm_compute in H. discriminate H.
Qed.

Lemma setVersion_witness :
  run 1%nat (setVersion 4) tx_world = (None, tx_world_after) /\
  exists (p : Store) (rows : list Cell),
    lookup_tx tx_world 1%nat = Some (mkTx TxOpen p) /\
    version_table p = Some rows /\
    lookup_tx tx_world_after 1%nat =
      Some (mkTx TxOpen (mkStore (Some [VInt 4]) (schema p))) /\
    durable tx_world_after = durable tx_world.
Proof.
  assert (F : fst (run 1%nat (setVersion 4) tx_world) = None)
    by (vm_compute; reflexivity).
  pose proof (run_result _ _ F) as H1.
  split; [exact H1|].
  exact (proj1 (setVersion_leaves_exactly_one_row 1%nat 4 tx_world
                  tx_world_after H1)).
Defined.

(** C4 as stated fails: under the dialect "oracle", which [upgradeV2] does
    not know, the step returns no error and has run the SQLite backfill; the
    whole [Upgrade] goes through. *)
Lemma upgradeV2_unknown_dialect_runs_sqlite_backfill :
  exec_prog (upgradeV2 oracle) (mkStore (Some [VInt 1]) []) [] =
    (None, mkStore (Some [VInt 1]) [addSigKeyColumn; fillSigKeySQLite], []) /\
  fst (Upgrade Upgrades oracle fresh_world) = Returned None.
Proof. split; vm_compute; reflexivity. Qed.

Lemma getVersion_ignores_read_failure_witness :
  (db_Exec createVersionTable [] misread_world = (None, misread_created) /\
   db_QueryRow selectVersion misread_created =
     (Some (mkRow (Some badConn) None), misread_queried) /\
   snd (Row_Scan (mkRow (Some badConn) None) 0) = Some badConn) /\
  getVersion sqlite misread_world = ((0, None), misread_queried).
Proof.
  assert (F1 : fst (db_Exec createVersionTable [] misread_world) = None)
    by (vm_compute; reflexivity).
  pose proof (run_result _ _ F1) as H1.
  assert (F2 : fst (db_QueryRow selectVersion misread_created) =
               Some (mkRow (Some badConn) None))
    by (vm_compute; reflexivity).
  pose proof (run_result _ _ F2) as H2.
  assert (H3 : snd (Row_Scan (mkRow (Some badConn) None) 0) = Some badConn)
    by (vm_compute; reflexivity).
  split; [split; [exact H1 | split; [exact H2 | exact H3]]|].
  exact (getVersion_ignores_read_failure sqlite misread_world misread_created
           misread_queried (mkRow (Some badConn) None) badConn H1 H2 H3).
Defined.

(** C9 as stated fails: the store is at version 2, and the one step that
    [Upgrade] invokes is step 0, while the store is at version 2. *)
Lemma step_invoked_at_another_version :
  stored_version (durable misread_world) = 2 /\
  map (fun cl => (call_step cl, stored_version (call_durable cl)))
      (calls misread_after) = [(0, 2)].
Proof. split; vm_compute; reflexivity. Qed.

(** C3 as stated fails: step 0 fails, its error is returned, and the
    persisted version is and stays 2, not 0. *)
Lemma failed_step_index_is_not_the_version :
  fst (Upgrade Upgrades sqlite misread_world) = Returned (Some tableExists) /\
  map (fun cl => (call_step cl, call_result cl)) (calls misread_after) =
    [(0, Some tableExists)] /\
  stored_version (durable misread_after) = 2.
Proof. repeat split; vm_compute; reflexivity. Qed.

(** C8 as stated fails: the store is at version 4, the length of the
    registry, and [Upgrade] begins a transaction, invokes step 0 and
    returns an error. *)
Lemma upgrade_at_latest_version_invokes_step :
  stored_version (durable latest_misread_world) = len Upgrades /\
  fst (Upgrade Upgrades sqlite latest_misread_world) =
    Returned (Some tableExists) /\
  map call_step (calls latest_misread_after) = [0] /\
  map tx_status (txs latest_misread_after) = [TxRolledBack].
Proof. repeat split; vm_compute; reflexivity. Qed.

Lemma failed_step_witness :
  (Upgrade Upgrades sqlite step1_fails_world =
     (Returned (Some duplicateColumn), step1_fails_after) /\
   calls step1_fails_after =
     calls step1_fails_world ++ calls step1_fails_after /\
   In step1_call (calls step1_fails_after) /\
   call_result step1_call = Some duplicateColumn) /\
  reads_stored_version sqlite step1_fails_world /\
  (exists p,
     lookup_tx step1_fails_after (call_tx step1_call) =
       Some (mkTx TxRolledBack p)) /\
  durable step1_fails_after = call_durable step1_call /\
  stored_version (durable step1_fails_after) = call_step step1_call /\
  call_step step1_call = 1.
Proof.
  assert (F : fst (Upgrade Upgrades sqlite step1_fails_world) =
              Returned (Some duplicateColumn))
    by (vm_compute; reflexivity).
  pose proof (run_result _ _ F) as H1.
  assert (H2 : calls step1_fails_after =
               calls step1_fails_world ++ calls step1_fails_after)
    by (exact (eq_refl (calls step1_fails_after))).
  assert (L : List.length (calls step1_fails_after) = 2%nat)
    by (vm_compute; reflexivity).
  assert (H3 : In step1_call (calls step1_fails_after))
    by (apply nth_In; rewrite L; apply le_n).
  assert (H4 : call_result step1_call = Some duplicateColumn)
    by (vm_compute; reflexivity).
  assert (Rd : reads_stored_version sqlite step1_fails_world)
    by (intros _; vm_compute; reflexivity).
  assert (K : call_step step1_call = 1) by (vm_compute; reflexivity).
  split; [split; [exact H1 | split; [exact H2 | split; [exact H3 | exact H4]]]|].
  split; [exact Rd|].
  destruct (failed_step_is_rolled_back_and_retried Upgrades sqlite
              step1_fails_world (Returned (Some duplicateColumn))
              step1_fails_after (calls step1_fails_after) step1_call
              duplicateColumn H1 H2 H3 H4) as (_ & Hp & Hd & _ & Hr).
  split; [exact Hp|]. split; [exact Hd|].
  split; [exact (proj1 (Hr Rd)) | exact K].
Defined.

Lemma upgrade_order_witness :
  (Upgrade Upgrades sqlite step1_fails_world =
     (Returned (Some duplicateColumn), step1_fails_after) /\
   reads_stored_version sqlite step1_fails_world) /\
  exists cs : list Call,
    calls step1_fails_after = calls step1_fails_world ++ cs /\
    map call_step cs =
      zseq (fst (fst (getVersion sqlite step1_fails_world))) (List.length cs) /\
    Forall (bump_committed step1_fails_after) cs /\
    Forall seen_at_own_version cs.
Proof.
  assert (F : fst (Upgrade Upgrades sqlite step1_fails_world) =
              Returned (Some duplicateColumn))
    by (vm_compute; reflexivity).
  pose proof (run_result _ _ F) as H1.
  assert (Rd : reads_stored_version sqlite step1_fails_world)
    by (intros _; vm_compute; reflexivity).
  split; [split; [exact H1 | exact Rd]|].
  destruct (upgrade_invokes_steps_in_order Upgrades sqlite step1_fails_world
              (Returned (Some duplicateColumn)) step1_fails_after H1)
    as (cs & E & St & Bump & Seen).
  exists cs.
  split; [exact E | split; [exact St | split; [exact Bump | exact (Seen Rd)]]].
Defined.

Lemma setVersion_failure_witness :
  (3 < len Upgrades /\
   db_Begin setVersion_fails_world = ((1%nat, None), setVersion_fails_begun) /\
   index Upgrades 3 = Some upgradeV4 /\
   invoke 3 1%nat (upgradeV4 sqlite)
     (snd (log_Infof "Upgrading database to v%d" [3 + 1] setVersion_fails_begun))
     = (None, setVersion_fails_stepped) /\
   run 1%nat (setVersion (3 + 1)) setVersion_fails_stepped =
     (Some diskFull, setVersion_fails_after)) /\
  upgrade_from Upgrades sqlite 3 setVersion_fails_world =
    (Returned (Some diskFull), setVersion_fails_after) /\
  durable setVersion_fails_after = durable setVersion_fails_world /\
  past setVersion_fails_after = past setVersion_fails_world /\
  exists p, lookup_tx setVersion_fails_after 1%nat = Some (mkTx TxOpen p).
Proof.
  assert (H1 : 3 < len Upgrades) by (vm_compute; reflexivity).
  assert (F2 : fst (db_Begin setVersion_fails_world) = (1%nat, None))
    by (vm_compute; reflexivity).
  pose proof (run_result _ _ F2) as H2.
  assert (H3 : index Upgrades 3 = Some upgradeV4) by reflexivity.
  assert (F4 : fst (invoke 3 1%nat (upgradeV4 sqlite)
                      (snd (log_Infof "Upgrading database to v%d" [3 + 1]
                              setVersion_fails_begun))) = None)
    by (vm_compute; reflexivity).
  pose proof (run_result _ _ F4) as H4.
  assert (F5 : fst (run 1%nat (setVersion (3 + 1)) setVersion_fails_stepped) =
               Some diskFull)
    by (vm_compute; reflexivity).
  pose proof (run_result _ _ F5) as H5.
  split;
    [split; [exact H1 | split; [exact H2 | split; [exact H3 | split;
       [exact H4 | exact H5]]]]|].
  destruct (setVersion_failure_commits_nothing Upgrades sqlite 3
              setVersion_fails_world setVersion_fails_begun
              setVersion_fails_stepped setVersion_fails_after 1%nat upgradeV4
              diskFull H1 H2 H3 H4 H5) as (A & B & C & D & _).
  split; [exact A | split; [exact B | split; [exact C | exact D]]].
Defined.

Lemma upgrade_at_latest_version_witness :
  (reads_ok latest_world /\
   version_table (durable latest_world) <> None /\
   stored_version (durable latest_world) = len Upgrades) /\
  exists w',
    Upgrade Upgrades sqlite latest_world = (Returned None, w') /\
    durable w' = durable latest_world /\ txs w' = txs latest_world /\
    calls w' = calls latest_world /\ log w' = log latest_world.
Proof.
  assert (H1 : reads_ok latest_world)
    by (split; vm_compute; reflexivity).
  assert (H2 : version_table (durable latest_world) <> None)
    by (vm_compute; discriminate).
  assert (H3 : stored_version (durable latest_world) = len Upgrades)
    by (vm_compute; reflexivity).
  split; [split; [exact H1 | split; [exact H2 | exact H3]]|].
  exact (upgrade_at_latest_version_is_noop Upgrades sqlite latest_world H1
           (or_introl (conj H2 H3))).
Defined.

(** ** Errors and edges of [Upgrade] *)

Lemma quiet_pop (n : nat) (fs : list error) :
  quiet (S n) fs -> fst (pop fs) = None /\ quiet n (snd (pop fs)).
Proof.
  intros Q. destruct fs as [|f rest]; simpl.
  - split; [reflexivity|]. intros k _. now destruct k.
  - split; [exact (Q O (Nat.lt_0_succ n))|].
    intros k Hk. apply (Q (S k)). now apply -> Nat.succ_lt_mono.
Qed.

Lemma quiet_reads_ok (n : nat) (w : World) :
  quiet (S (S n)) (faults w) -> reads_ok w.
Proof.
  intros Q. destruct (quiet_pop _ _ Q) as [F1 Q1].
  destruct (quiet_pop _ _ Q1) as [F2 _]. now split.
Qed.

Section Edges.

Variable registry : list upgradeFunc.
Variable c : Container.

(** X1.  When the driver fails the [CREATE TABLE IF NOT EXISTS] of
    [getVersion] with [e], [getVersion] returns (-1, [e]) and [Upgrade]
    returns [e] at once: the query for the version is not sent, no
    transaction is begun, no step is invoked, and nothing changes but the
    one driver answer used up. *)
Theorem upgrade_returns_getVersion_error :
  forall (w : World) (e : string),
    fst (pop (faults w)) = Some e ->
    fst (getVersion c w) = (-1, Some e) /\
    Upgrade registry c w =
      (Returned (Some e), set_faults (snd (pop (faults w))) w).
Proof.
  intros w e F. unfold Upgrade, bind. rewrite getVersion_eq.
  destruct (pop (faults w)) as [[e'|] r1]; cbn [fst snd] in *;
    [|discriminate].
  injection F as ->. split; reflexivity.
Qed.

(** X2.  When the driver fails [Begin] with [e] at the head of an iteration,
    the loop, and so [Upgrade], returns [e]; no step is invoked, no
    transaction exists for the iteration, nothing is logged, and the
    durable store is untouched: the world is the one before [Begin] less
    the driver answer used up. *)
Theorem begin_failure_is_returned :
  forall (version : Z) (w : World) (e : string),
    version < len registry ->
    fst (pop (faults w)) = Some e ->
    upgrade_from registry c version w =
      (Returned (Some e), set_faults (snd (pop (faults w))) w) /\
    (forall (w0 : World) (version0 : Z) (wl : World),
       getVersion c w0 = ((version0, None), wl) ->
       reaches registry c version0 wl version w ->
       Upgrade registry c w0 =
         (Returned (Some e), set_faults (snd (pop (faults w))) w)).
Proof.
  intros version w e Lt F.
  assert (Run : upgrade_from registry c version w =
                (Returned (Some e), set_faults (snd (pop (faults w))) w)).
  { rewrite upgrade_from_unfold.
    destruct (Z.ltb_spec version (len registry)); [|lia].
    unfold bind, upgrade_iteration, bind, db_Begin.
    destruct (pop (faults w)) as [[e'|] r1]; cbn [fst snd] in *;
      [|discriminate].
    injection F as ->. reflexivity. }
  split; [exact Run|].
  intros w0 v0 wl G Re. unfold Upgrade, bind. rewrite G. cbn [isErr].
  rewrite (reaches_upgrade_from _ _ _ _ _ _ Re). exact Run.
Qed.

(** X4.  A stored version below 0 makes [Upgrade] panic: the loop test
    [version < len(Upgrades)] holds, a transaction is begun, and the index
    [Upgrades[version]] is out of range.  No step is invoked, nothing is
    logged, the durable store is untouched, and the transaction just begun
    stays open. *)
Theorem negative_version_panics :
  forall w : World,
    quiet 3 (faults w) ->
    stored_version (durable w) < 0 ->
    exists w',
      Upgrade registry c w = (Panicked, w') /\
      durable w' = durable w /\
      txs w' = txs w ++ [mkTx TxOpen (durable w)] /\
      calls w' = calls w /\ log w' = log w.
Proof.
  intros w Q Neg. unfold Upgrade, bind. rewrite getVersion_eq.
  destruct (quiet_pop _ _ Q) as [F1 Q1].
  destruct (quiet_pop _ _ Q1) as [F2 Q2].
  destruct (quiet_pop _ _ Q2) as [F3 _].
  destruct (pop (faults w)) as [[e|] r1]; cbn [fst snd] in *; [discriminate|].
  destruct (pop r1) as [[e|] r2] eqn:P2; cbn [fst snd] in *; [discriminate|].
  cbn [isErr]. rewrite upgrade_from_unfold.
  assert (L : 0 <= len registry) by (unfold len; lia).
  destruct (Z.ltb_spec (stored_version (durable w)) (len registry)); [|lia].
  unfold bind, upgrade_iteration, bind, db_Begin.
  cbn [faults set_faults install].
  destruct (pop r2) as [[e|] r3]; cbn [fst snd] in *; [discriminate|].
  cbn [isErr]. unfold index.
  destruct (Z.ltb_spec (stored_version (durable w)) 0); [|lia].
  eexists. split; [reflexivity|]. cbn.
  unfold created. unfold stored_version in Neg.
  destruct (version_table (durable w)) as [[|[z| |o] rows]|];
    try lia; auto.
Qed.

(** X5.  On a store whose version is the length of the registry or above it
    (a store that a later release has upgraded, or any store when the
    registry is empty), [Upgrade] whose [getVersion] is not failed returns
    no error, begins no transaction, invokes no step and logs nothing; the
    only thing it may do is create the version table when there is none.
    The version is left as it is: there is no downgrade and no error for a
    store that is ahead. *)
Theorem store_ahead_is_left_alone :
  forall w : World,
    reads_ok w ->
    len registry <= stored_version (durable w) ->
    exists w',
      Upgrade registry c w = (Returned None, w') /\
      durable w' = created (durable w) /\
      stored_version (durable w') = stored_version (durable w) /\
      txs w' = txs w /\ calls w' = calls w /\ log w' = log w.
Proof.
  intros w [F1 F2] L. unfold Upgrade, bind. rewrite getVersion_eq.
  destruct (pop (faults w)) as [[e|] r1]; cbn [fst snd] in *; [discriminate|].
  destruct (pop r1) as [[e|] r2]; cbn [fst snd] in *; [discriminate|].
  cbn [isErr]. unfold upgrade_from.
  replace (Z.to_nat (len registry - stored_version (durable w))) with O by lia.
  eexists. split; [reflexivity|]. cbn.
  rewrite stored_version_created. auto.
Qed.

End Edges.

(** ** The version store and the commit *)

Lemma durable_update (w : World) (tx : Tx) (r : TxRec) :
  durable (update_tx tx r w) = durable w /\ past (update_tx tx r w) = past w.
Proof. destruct tx; split; reflexivity. Qed.

Lemma begun_open (w w1 : World) (tx : Tx) :
  db_Begin w = ((tx, None), w1) ->
  lookup_tx w1 tx = Some (mkTx TxOpen (durable w)) /\
  durable w1 = durable w /\ past w1 = past w.
Proof.
  unfold db_Begin. destruct (pop (faults w)) as [[e|] r1]; [discriminate|].
  intros H. injection H as <- <-.
  cbn [lookup_tx set_txs set_faults txs durable past].
  split; [apply nth_error_last | split; reflexivity].
Qed.

Lemma run_keeps_open (p : TxProg) (tx : Tx) (w w2 : World) (s : Store)
    (r : error) :
  lookup_tx w tx = Some (mkTx TxOpen s) ->
  run tx p w = (r, w2) ->
  exec_prog p s (faults w) =
    (r, snd (fst (exec_prog p s (faults w))), faults w2) /\
  lookup_tx w2 tx =
    Some (mkTx TxOpen (snd (fst (exec_prog p s (faults w))))) /\
  durable w2 = durable w /\ past w2 = past w.
Proof.
  intros L R. destruct (run_open p tx w s L) as (E1 & E2 & E3).
  pose proof (run_frame p tx w) as (D & P & _).
  rewrite R in E1, E2, E3, D, P. cbn [fst snd] in *.
  destruct (exec_prog p s (faults w)) as [[r' s'] fs']. cbn [fst snd] in *.
  subst. auto.
Qed.

Lemma invoke_keeps_open (version : Z) (p : TxProg) (tx : Tx) (w w2 : World)
    (s : Store) (r : error) :
  lookup_tx w tx = Some (mkTx TxOpen s) ->
  invoke version tx p w = (r, w2) ->
  (exists s', lookup_tx w2 tx = Some (mkTx TxOpen s') /\
              schema s' = schema (snd (fst (exec_prog p s (faults w))))) /\
  durable w2 = durable w /\ past w2 = past w.
Proof.
  intros L I. unfold invoke in I.
  destruct (run tx p w) as [r' wr] eqn:R. injection I as -> <-.
  destruct (run_keeps_open _ _ _ _ _ _ L R) as (_ & L2 & D & P).
  split; [eexists; split; [exact L2 | reflexivity]|]. split; assumption.
Qed.

(** What a failing [setVersion] leaves in the transaction's copy. *)
Lemma setVersion_fails (v : Z) (s s' : Store) (fs fs' : list error)
    (e : string) :
  exec_prog (setVersion v) s fs = (Some e, s', fs') ->
  s' = s \/
  (version_table s <> None /\ s' = mkStore (Some []) (schema s)).
Proof.
  unfold setVersion; cbn [exec_prog].
  destruct (pop fs) as [[e1|] r1]; cbn [isErr exec_prog].
  - intros H; injection H as _ <- _. now left.
  - change "DELETE FROM whatsmeow_version" with deleteVersion.
    rewrite apply_delete.
    destruct (version_table s) as [rows|] eqn:T; cbn [isErr exec_prog].
    + destruct (pop r1) as [[e2|] r2]; cbn [exec_prog].
      * intros H; injection H as _ <- _. right. split; [discriminate|].
        reflexivity.
      * change "INSERT INTO whatsmeow_version (version) VALUES (?)"
          with insertVersion.
        rewrite apply_insert. cbn. discriminate.
    + intros H; injection H as _ <- _. now left.
Qed.

(** X6.  [setVersion] is two statements, and a failure can fall between
    them.  When [setVersion tx v] returns an error, the durable store is
    untouched, and the transaction's copy is either as it was (the
    transaction was not open, or the [DELETE] failed) or has lost all rows
    of the version table (the [DELETE] went through and the [INSERT]
    failed); it never holds the new row. *)
Theorem setVersion_failure_modes :
  forall (tx : Tx) (v : Z) (w w' : World) (e : string),
    run tx (setVersion v) w = (Some e, w') ->
    durable w' = durable w /\
    ((forall s, lookup_tx w tx <> Some (mkTx TxOpen s)) ->
       e = ErrTxDone /\ w' = w) /\
    (forall p, lookup_tx w tx = Some (mkTx TxOpen p) ->
       lookup_tx w' tx = Some (mkTx TxOpen p) \/
       (version_table p <> None /\
        lookup_tx w' tx = Some (mkTx TxOpen (mkStore (Some []) (schema p))))).
Proof.
  intros tx v w w' e R.
  pose proof (run_frame (setVersion v) tx w) as (D & _).
  rewrite R in D. cbn [snd] in D. split; [exact D|]. split.
  - intros N. rewrite (setVersion_not_open tx v w N) in R.
    injection R as <- <-. split; reflexivity.
  - intros p L.
    destruct (run_keeps_open _ _ _ _ _ _ L R) as (X & L2 & _).
    apply setVersion_fails in X. destruct X as [X|[T X]]; rewrite X in L2.
    + now left.
    + right. now split.
Qed.

Section Commit.

Variable registry : list upgradeFunc.
Variable c : Container.

(** X3.  When a step and the [setVersion] after it went through and the
    driver fails the [Commit] with [e], the loop, and so [Upgrade], returns
    [e] and goes no further.  The durable store and its history are those
    from before the iteration; the version [version + 1] was in the
    transaction's copy only, and the transaction is over. *)
Theorem commit_failure_is_returned :
  forall (version : Z) (w w1 w2 w3 w4 : World) (tx : Tx)
         (migrateFunc : upgradeFunc) (e : string),
    version < len registry ->
    db_Begin w = ((tx, None), w1) ->
    index registry version = Some migrateFunc ->
    invoke version tx (migrateFunc c)
      (snd (log_Infof "Upgrading database to v%d" [version + 1] w1))
      = (None, w2) ->
    run tx (setVersion (version + 1)) w2 = (None, w3) ->
    tx_Commit tx w3 = (Some e, w4) ->
    upgrade_from registry c version w = (Returned (Some e), w4) /\
    durable w4 = durable w /\ past w4 = past w /\
    (exists p, lookup_tx w4 tx = Some (mkTx TxRolledBack p) /\
               version_table p = Some [VInt (version + 1)]) /\
    (forall (w0 : World) (version0 : Z) (wl : World),
       getVersion c w0 = ((version0, None), wl) ->
       reaches registry c version0 wl version w ->
       Upgrade registry c w0 = (Returned (Some e), w4)).
Proof.
  intros version w w1 w2 w3 w4 tx f e Lt B I Inv Sv Cm.
  assert (Run : upgrade_from registry c version w = (Returned (Some e), w4)).
  { rewrite upgrade_from_unfold.
    destruct (Z.ltb_spec version (len registry)); [|lia].
    unfold bind, upgrade_iteration, bind. rewrite B. cbn [isErr]. rewrite I.
    unfold log_Infof in *. cbn [snd] in Inv. rewrite Inv. cbn [isErr].
    rewrite Sv. cbn [isErr]. rewrite Cm. reflexivity. }
  split; [exact Run|].
  destruct (begun_open _ _ _ B) as (L1 & D1 & P1).
  unfold log_Infof in Inv. cbn [snd] in Inv.
  assert (L1' : lookup_tx (add_log ("Upgrading database to v%d", [version + 1]) w1) tx
                = Some (mkTx TxOpen (durable w))) by exact L1.
  destruct (invoke_keeps_open _ _ _ _ _ _ _ L1' Inv) as ((s2 & L2 & _) & D2 & P2).
  change (durable (add_log _ w1)) with (durable w1) in D2.
  change (past (add_log _ w1)) with (past w1) in P2.
  destruct (run_keeps_open _ _ _ _ _ _ L2 Sv) as (X & L3 & D3 & P3).
  apply setVersion_ok in X. destruct X as [X _]. rewrite X in L3.
  unfold tx_Commit in Cm. rewrite L3 in Cm.
  destruct (pop (faults w3)) as [[e'|] r]; [|discriminate].
  injection Cm as <- <-.
  split; [|split; [|split]].
  - rewrite (proj1 (durable_update _ _ _)). cbn [set_faults durable].
    congruence.
  - rewrite (proj2 (durable_update _ _ _)). cbn [set_faults past].
    congruence.
  - eexists.
    split; [apply (lookup_update (set_faults r w3) tx _ _ L3) | reflexivity].
  - intros w0 v0 wl G Re. unfold Upgrade, bind. rewrite G. cbn [isErr].
    rewrite (reaches_upgrade_from _ _ _ _ _ _ Re). exact Run.
Qed.

End Commit.

(** X7.  What [setVersion] writes and [Commit] installs is what
    [getVersion] reads.  For every [v], when a transaction is begun, a
    [setVersion v] on it returns no error and its [Commit] goes through,
    the version table of the durable store holds the one row [v], the
    schema is as before, and a [getVersion] whose two statements are not
    failed returns [v]. *)
Theorem committed_version_is_read_back :
  forall (c : Container) (v : Z) (w w1 w2 w3 : World) (tx : Tx),
    db_Begin w = ((tx, None), w1) ->
    run tx (setVersion v) w1 = (None, w2) ->
    tx_Commit tx w2 = (None, w3) ->
    durable w3 = mkStore (Some [VInt v]) (schema (durable w)) /\
    (reads_ok w3 -> fst (getVersion c w3) = (v, None)).
Proof.
  intros c v w w1 w2 w3 tx B Sv Cm.
  destruct (begun_open _ _ _ B) as (L1 & D1 & P1).
  destruct (run_keeps_open _ _ _ _ _ _ L1 Sv) as (X & L2 & D2 & P2).
  apply setVersion_ok in X. destruct X as [X _]. rewrite X in L2.
  unfold tx_Commit in Cm. rewrite L2 in Cm.
  destruct (pop (faults w2)) as [[e'|] r]; [discriminate|].
  injection Cm as <-.
  assert (D : durable (install (mkStore (Some [VInt v]) (schema (durable w)))
                (update_tx tx
                   (mkTx TxCommitted (mkStore (Some [VInt v]) (schema (durable w))))
                   (set_faults r w2))) =
              mkStore (Some [VInt v]) (schema (durable w))) by reflexivity.
  split; [exact D|].
  intros Rd. pose proof (reads_ok_stored c _ Rd) as Rs.
  unfold reads_stored_version in Rs. rewrite getVersion_eq in *.
  destruct Rd as [F1 F2].
  destruct (pop (faults (install _ _))) as [[e1|] r1]; cbn [fst snd] in *;
    [discriminate|].
  destruct (pop r1) as [[e2|] r2]; cbn [fst snd] in *; [discriminate|].
  rewrite D. reflexivity.
Qed.

(** X15.  [getVersion] touches nothing but the existence of the version
    table: whatever the driver fails, the schema, the stored version, the
    transactions, the calls and the log are as before; and once a call has
    returned no error, a further call leaves the durable store as it is. *)
Theorem getVersion_only_creates_the_table :
  forall (c : Container) (w : World),
    schema (durable (snd (getVersion c w))) = schema (durable w) /\
    stored_version (durable (snd (getVersion c w))) =
      stored_version (durable w) /\
    txs (snd (getVersion c w)) = txs w /\
    calls (snd (getVersion c w)) = calls w /\
    log (snd (getVersion c w)) = log w /\
    (durable (snd (getVersion c w)) = durable w \/
     (version_table (durable w) = None /\
      durable (snd (getVersion c w)) = mkStore (Some []) (schema (durable w)))) /\
    (snd (fst (getVersion c w)) = None ->
     durable (snd (getVersion c (snd (getVersion c w)))) =
       durable (snd (getVersion c w))).
Proof.
  intros c w.
  destruct (getVersion_frame c w) as (Fc & Ft & Fl & Fv & Fs).
  repeat (split; [assumption|]). split.
  - rewrite getVersion_eq.
    destruct (pop (faults w)) as [[e|] r1]; [now left|].
    unfold created.
    destruct (pop r1) as [[e|] r2]; cbn;
      destruct (version_table (durable w)); auto.
  - intros Ok.
    assert (T : version_table (durable (snd (getVersion c w))) <> None).
    { apply (getVersion_reads c w (fst (fst (getVersion c w)))).
      destruct (getVersion c w) as [[v err] w1]. cbn [fst snd] in *.
      now subst. }
    set (w1 := snd (getVersion c w)) in *.
    rewrite (getVersion_eq c w1).
    destruct (pop (faults w1)) as [[e|] r1]; [reflexivity|].
    unfold created.
    destruct (pop r1) as [[e|] r2]; cbn;
      destruct (version_table (durable w1)); auto; now destruct T.
Qed.

(** ** The bookkeeping of the loop *)

Section Accounting.

Variable registry : list upgradeFunc.
Variable c : Container.

Ltac iteration_inv H :=
  inversion H; subst; clear H; unfold after_step, set_faults in *;
  cbn [durable past txs faults log calls states] in *.

Lemma loop_accounting todo version w out w' :
  loop_spec registry c todo version w out w' ->
  exists cs ts,
    calls w' = calls w ++ cs /\
    txs w' = txs w ++ ts /\
    log w' = log w ++ map (fun cl => logLine (call_step cl)) cs /\
    map call_tx cs = seq (S (List.length (txs w))) (List.length cs) /\
    List.length ts =
      (List.length cs + match out with Panicked => 1 | _ => 0 end)%nat /\
    Forall (fun r => is_committed r = true) (removelast ts) /\
    (out = Returned None -> Forall (fun r => is_committed r = true) ts) /\
    states w' = rev (map tx_pending (filter is_committed ts)) ++ states w /\
    match List.length (filter is_committed ts) with
    | O => durable w' = durable w
    | S n => version_table (durable w') = Some [VInt (version + Z.of_nat (S n))]
    end.
Proof.
  induction 1 as [v w | n v w out w' It | n v w w1 out w' It Lp IH].
  - exists [], []. rewrite !app_nil_r. cbn. repeat split; auto.
  - iteration_inv It.
    + exists [], []. rewrite !app_nil_r. cbn. repeat split; auto.
    + exists [], [mkTx TxOpen (durable w)]. rewrite !app_nil_r. cbn.
      repeat split; auto. discriminate.
    + eexists [_], [_]. cbn.
      repeat split; auto. discriminate.
    + eexists [_], [_]. cbn.
      repeat split; auto. discriminate.
    + eexists [_], [_]. cbn.
      repeat split; auto. discriminate.
  - destruct IH as (cs & ts & Ec & Et & El & Ex & Len & Cm & All & St & Vn).
    iteration_inv It.
    match goal with
    | H : exec_prog (setVersion _) _ _ = _ |- _ =>
        apply setVersion_ok in H; destruct H as [-> _]
    end.
    eexists (_ :: cs), (_ :: ts).
    rewrite Ec, Et, El, <- !app_assoc.
    split; [reflexivity|]. split; [reflexivity|]. split; [reflexivity|].
    split.
    { cbn [map call_tx List.length seq]. f_equal. rewrite Ex.
      rewrite length_app. cbn [List.length]. now rewrite Nat.add_1_r. }
    split; [cbn [List.length]; now rewrite Len|].
    split.
    { destruct ts as [|t ts']; [constructor|].
      change (removelast (?a :: t :: ts')) with (a :: removelast (t :: ts')).
      constructor; [reflexivity | exact Cm]. }
    split; [intros Eo; constructor; [reflexivity | auto]|].
    cbn [filter is_committed tx_status map tx_pending rev List.length].
    split.
    { rewrite St. unfold states. cbn [durable past].
      rewrite <- app_assoc. reflexivity. }
    destruct (List.length (filter is_committed ts)) as [|k].
    + rewrite Vn. reflexivity.
    + rewrite Vn. do 3 f_equal. lia.
Qed.

(** X8.  [Upgrade] writes one log line for every step it invokes, before
    invoking it and in the same order, naming the version the step leads to
    ([Upgrading database to v%d] with the step's index plus one), and it
    logs nothing else: not when [getVersion] or [Begin] fails, and not when
    the index is out of range. *)
Theorem upgrade_logs_each_invoked_step :
  forall w : World,
    exists cs : list Call,
      calls (snd (Upgrade registry c w)) = calls w ++ cs /\
      log (snd (Upgrade registry c w)) =
        log w ++ map (fun cl => logLine (call_step cl)) cs.
Proof.
  intros w. destruct (Upgrade registry c w) as [out w'] eqn:U. cbn [snd].
  destruct (getVersion_frame c w) as (Fc & _ & Fl & _).
  destruct (Upgrade_spec _ _ _ _ _ U) as [(e & _ & _ & ->)|(v & _ & Lp)].
  - exists []. rewrite Fc, Fl, !app_nil_r. auto.
  - destruct (loop_accounting _ _ _ _ _ Lp) as (cs & ts & Ec & _ & El & _).
    exists cs. rewrite Ec, El, Fc, Fl. auto.
Qed.

(** X9.  The transactions of a call of [Upgrade].  It begins its
    transactions one after the other and touches no earlier one; each step
    it invokes runs on a transaction begun for it, the [i]-th step on the
    [i]-th transaction; unless the run panics there are as many
    transactions as steps invoked, and then one more.  Every transaction
    but the last is committed, and all are when [Upgrade] returns no error.
    After [getVersion], the durable store changes by these commits only:
    the states it goes through are the copies of the committed
    transactions, in order. *)
Theorem upgrade_transactions :
  forall w : World,
    exists (cs : list Call) (ts : list TxRec),
      calls (snd (Upgrade registry c w)) = calls w ++ cs /\
      txs (snd (Upgrade registry c w)) = txs w ++ ts /\
      map call_tx cs = seq (S (List.length (txs w))) (List.length cs) /\
      List.length ts =
        (List.length cs +
         match fst (Upgrade registry c w) with Panicked => 1 | _ => 0 end)%nat /\
      Forall (fun r => is_committed r = true) (removelast ts) /\
      (fst (Upgrade registry c w) = Returned None ->
         Forall (fun r => is_committed r = true) ts) /\
      states (snd (Upgrade registry c w)) =
        rev (map tx_pending (filter is_committed ts)) ++
        states (snd (getVersion c w)).
Proof.
  intros w. destruct (Upgrade registry c w) as [out w'] eqn:U. cbn [fst snd].
  destruct (getVersion_frame c w) as (Fc & Ft & _).
  destruct (Upgrade_spec _ _ _ _ _ U) as [(e & _ & -> & ->)|(v & _ & Lp)].
  - exists [], []. rewrite Fc, Ft, !app_nil_r. cbn.
    repeat split; auto.
  - destruct (loop_accounting _ _ _ _ _ Lp)
      as (cs & ts & Ec & Et & _ & Ex & Len & Cm & All & St & _).
    exists cs, ts. rewrite Ec, Et, Fc, Ft in *. repeat split; auto.
Qed.

(** X10.  The version of the durable store counts the commits.  When a call
    of [Upgrade] has committed [n > 0] transactions, the version table of
    the durable store holds the one row [v + n], where [v] is the version
    that [getVersion] returned; when it has committed none, the durable
    store is the one [getVersion] left. *)
Theorem upgrade_version_counts_commits :
  forall (w : World) (v : Z) (ts : list TxRec),
    fst (getVersion c w) = (v, None) ->
    txs (snd (Upgrade registry c w)) = txs w ++ ts ->
    match List.length (filter is_committed ts) with
    | O => durable (snd (Upgrade registry c w)) =
             durable (snd (getVersion c w))
    | S n => version_table (durable (snd (Upgrade registry c w))) =
               Some [VInt (v + Z.of_nat (S n))]
    end.
Proof.
  intros w v ts G Et.
  destruct (Upgrade registry c w) as [out w'] eqn:U. cbn [snd] in *.
  destruct (getVersion_frame c w) as (_ & Ft & _).
  destruct (Upgrade_spec _ _ _ _ _ U) as [(e & G' & _)|(v' & G' & Lp)];
    [congruence|].
  assert (v' = v) by congruence. subst v'.
  destruct (loop_accounting _ _ _ _ _ Lp) as (cs & ts' & _ & Et' & _ & _ & _ & _ & _ & _ & Vn).
  rewrite Ft, Et in Et'. apply app_inv_head in Et'. subst ts'. exact Vn.
Qed.

End Accounting.

(** ** The steps of [Upgrades] *)

Lemma apply_plain (query : string) (args : list Z) (s : Store) :
  plain query = true ->
  apply_stmt query args s =
    (None, mkStore (version_table s) (schema s ++ [query])).
Proof.
  unfold plain, apply_stmt.
  destruct (query =? createVersionTable)%string; [discriminate|].
  destruct (query =? deleteVersion)%string; [discriminate|].
  destruct (query =? insertVersion)%string; [discriminate|].
  reflexivity.
Qed.

(** What a function that sends plain statements one after the other leaves
    in a store. *)
Lemma sends_exec (qs : list string) (p : TxProg) :
  sends qs p ->
  Forall (fun q => plain q = true) qs ->
  forall s fs,
    exec_prog p s fs =
      (snd (first_failure (List.length qs) fs),
       mkStore (version_table s)
         (schema s ++ firstn (fst (first_failure (List.length qs) fs)) qs),
       skipn (fst (first_failure (List.length qs) fs) +
              match snd (first_failure (List.length qs) fs) with
              | Some _ => 1
              | None => 0
              end) fs).
Proof.
  induction 1 as [|q args next qs Err _ IH]; intros Pl s fs.
  - destruct s. cbn. now rewrite app_nil_r.
  - inversion Pl as [|q' qs' Pq Pqs]; subst.
    cbn [exec_prog List.length first_failure].
    destruct fs as [|[e|] rest]; cbn [pop].
    + rewrite (apply_plain _ _ _ Pq), (IH Pqs).
      destruct (first_failure (List.length qs) []) as [k err].
      cbn [fst snd firstn version_table schema].
      rewrite <- app_assoc, !skipn_nil. reflexivity.
    + rewrite Err. destruct s. cbn. now rewrite app_nil_r.
    + rewrite (apply_plain _ _ _ Pq), (IH Pqs).
      destruct (first_failure (List.length qs) rest) as [k err].
      cbn [fst snd firstn version_table schema Nat.add skipn].
      rewrite <- app_assoc. reflexivity.
Qed.

Lemma Upgrades_send (c : Container) (i : nat) (f : upgradeFunc) :
  nth_error Upgrades i = Some f ->
  sends (step_statements c i) (f c) /\
  Forall (fun q => plain q = true) (step_statements c i).
Proof.
  intros N.
  destruct i as [|[|[|[|i]]]]; cbn in N;
    [| | | |destruct i; discriminate]; injection N as <-.
  - split.
    + unfold step_statements, upgradeV1.
      repeat (apply sends_cons; [intros e; reflexivity|]). apply sends_nil.
    + repeat (constructor; [vm_compute; reflexivity|]). constructor.
  - unfold step_statements, upgradeV2.
    destruct ((dialect c =? "postgres")%string || (dialect c =? "pgx")%string);
      (split;
       [ repeat (apply sends_cons; [intros e; reflexivity|]); apply sends_nil
       | repeat (constructor; [vm_compute; reflexivity|]); constructor ]).
  - split.
    + unfold step_statements, upgradeV3.
      repeat (apply sends_cons; [intros e; reflexivity|]). apply sends_nil.
    + repeat (constructor; [vm_compute; reflexivity|]). constructor.
  - split.
    + unfold step_statements, upgradeV4.
      repeat (apply sends_cons; [intros e; reflexivity|]). apply sends_nil.
    + repeat (constructor; [vm_compute; reflexivity|]). constructor.
Qed.

(** X12.  What a step of [Upgrades] does to its transaction.  Step [i]
    sends the statements [step_statements c i] in this order and stops at
    the first one that fails: it returns that statement's error (nil when
    none fails) and leaves in the transaction the statements before it, and
    nothing else.  No step touches the version table, and none writes to
    the durable store. *)
Theorem step_sends_its_statements_in_order :
  forall (c : Container) (i : nat) (f : upgradeFunc) (tx : Tx) (w : World)
         (s : Store),
    nth_error Upgrades i = Some f ->
    lookup_tx w tx = Some (mkTx TxOpen s) ->
    let sent :=
      first_failure (List.length (step_statements c i)) (faults w) in
    fst (run tx (f c) w) = snd sent /\
    lookup_tx (snd (run tx (f c) w)) tx =
      Some (mkTx TxOpen
              (mkStore (version_table s)
                 (schema s ++ firstn (fst sent) (step_statements c i)))) /\
    durable (snd (run tx (f c) w)) = durable w.
Proof.
  intros c i f tx w s N L sent.
  destruct (Upgrades_send c i f N) as [Sd Pl].
  destruct (run_open (f c) tx w s L) as (E1 & E2 & _).
  pose proof (run_frame (f c) tx w) as (D & _).
  rewrite (sends_exec _ _ Sd Pl) in E1, E2. cbn [fst snd] in E1, E2.
  split; [exact E1|]. split; [exact E2 | exact D].
Qed.

Lemma pop_faultless (fs : list error) :
  faultless fs -> fst (pop fs) = None /\ faultless (snd (pop fs)).
Proof.
  intros F. destruct F as [|f rest Hf Hr]; cbn [pop fst snd].
  - split; [reflexivity | constructor].
  - split; assumption.
Qed.

Lemma first_failure_faultless (n : nat) :
  forall fs, faultless fs -> first_failure n fs = (n, None).
Proof.
  induction n as [|n IH]; intros fs F; [reflexivity|].
  cbn [first_failure]. destruct (pop_faultless fs F) as [P R].
  destruct (pop fs) as [f rest]. cbn [fst snd] in P, R. subst f.
  now rewrite (IH rest R).
Qed.

Lemma skipn_faultless (n : nat) :
  forall fs, faultless fs -> faultless (skipn n fs).
Proof.
  induction n as [|n IH]; intros fs F; [exact F|].
  destruct F as [|f rest _ Hr]; [constructor|]. cbn [skipn]. auto.
Qed.

Lemma setVersion_faultless (v : Z) (s : Store) (fs : list error) :
  faultless fs ->
  version_table s <> None ->
  exists fs',
    exec_prog (setVersion v) s fs =
      (None, mkStore (Some [VInt v]) (schema s), fs') /\
    faultless fs'.
Proof.
  intros F T. unfold setVersion. cbn [exec_prog].
  destruct (pop_faultless fs F) as [P1 R1].
  destruct (pop fs) as [f1 r1]. cbn [fst snd] in P1, R1. subst f1.
  change "DELETE FROM whatsmeow_version" with deleteVersion.
  rewrite apply_delete.
  destruct (version_table s) as [rows|]; [|now destruct T].
  cbn [isErr exec_prog].
  destruct (pop_faultless r1 R1) as [P2 R2].
  destruct (pop r1) as [f2 r2]. cbn [fst snd] in P2, R2. subst f2.
  change "INSERT INTO whatsmeow_version (version) VALUES (?)"
    with insertVersion.
  rewrite apply_insert. cbn. eauto.
Qed.

Lemma loop_faultless (c : Container) (todo : nat) :
  forall (k : nat) (w : World),
    faultless (faults w) ->
    version_table (durable w) <> None ->
    (k + todo = 4)%nat ->
    exists w',
      upgrade_loop Upgrades c todo (Z.of_nat k) w = (Returned None, w') /\
      schema (durable w') =
        schema (durable w) ++ pending_statements c k todo /\
      (todo <> O -> version_table (durable w') = Some [VInt 4]).
Proof.
  induction todo as [|todo IH]; intros k w F T K.
  - exists w. cbn. rewrite app_nil_r. repeat split; auto. congruence.
  - cbn [upgrade_loop]. unfold bind.
    pose proof (upgrade_iteration_spec Upgrades c (Z.of_nat k) w) as It.
    destruct (upgrade_iteration Upgrades c (Z.of_nat k) w) as [r w1].
    cbn [fst snd] in It.
    assert (Ix : index Upgrades (Z.of_nat k) = nth_error Upgrades k).
    { unfold index. destruct (Z.ltb_spec (Z.of_nat k) 0); [lia|].
      now rewrite Nat2Z.id. }
    destruct (pop_faultless _ F) as [P1 R1].
    inversion It as
      [ e fs1 Pb
      | fs1 Pb In
      | fs1 f e mid fs2 Pb In Ex
      | fs1 f mid fs2 e mid' fs3 Pb In Ex Sv
      | fs1 f mid fs2 mid' fs3 e fs4 Pb In Ex Sv Pc
      | fs1 f mid fs2 mid' fs3 fs4 Pb In Ex Sv Pc ]; subst; clear It;
      rewrite Pb in P1, R1; cbn [fst snd] in P1, R1; try discriminate.
    + rewrite Ix in In. apply nth_error_None in In. cbn in In. lia.
    + rewrite Ix in In. destruct (Upgrades_send c k f In) as [Sd Pl].
      rewrite (sends_exec _ _ Sd Pl), (first_failure_faultless _ _ R1) in Ex.
      discriminate.
    + rewrite Ix in In. destruct (Upgrades_send c k f In) as [Sd Pl].
      rewrite (sends_exec _ _ Sd Pl), (first_failure_faultless _ _ R1) in Ex.
      cbn [fst snd] in Ex. injection Ex as <- <-.
      match type of Sv with
      | exec_prog _ ?s1 ?fs = _ =>
          destruct (setVersion_faultless (Z.of_nat k + 1) s1 fs
                      (skipn_faultless _ _ R1) T) as (fs' & Sv' & _)
      end.
      cbn [version_table] in Sv'. rewrite Sv' in Sv. discriminate.
    + rewrite Ix in In. destruct (Upgrades_send c k f In) as [Sd Pl].
      rewrite (sends_exec _ _ Sd Pl), (first_failure_faultless _ _ R1) in Ex.
      cbn [fst snd] in Ex. injection Ex as <- <-.
      match type of Sv with
      | exec_prog _ ?s1 ?fs = _ =>
          destruct (setVersion_faultless (Z.of_nat k + 1) s1 fs
                      (skipn_faultless _ _ R1) T) as (fs' & Sv' & F')
      end.
      cbn [version_table] in Sv'. rewrite Sv' in Sv.
      injection Sv as <- <-.
      destruct (pop_faultless _ F') as [P3 _]. rewrite Pc in P3.
      discriminate.
    + rewrite Ix in In. destruct (Upgrades_send c k f In) as [Sd Pl].
      rewrite (sends_exec _ _ Sd Pl), (first_failure_faultless _ _ R1) in Ex.
      cbn [fst snd] in Ex. injection Ex as <- <-.
      match type of Sv with
      | exec_prog _ ?s1 ?fs = _ =>
          destruct (setVersion_faultless (Z.of_nat k + 1) s1 fs
                      (skipn_faultless _ _ R1) T) as (fs' & Sv' & F')
      end.
      cbn [version_table] in Sv'. rewrite Sv' in Sv.
      injection Sv as <- <-.
      destruct (pop_faultless _ F') as [_ R3]. rewrite Pc in R3.
      cbn [snd] in R3.
      replace (Z.of_nat k + 1) with (Z.of_nat (S k)) by lia.
      edestruct (IH (S k)) as (w' & Run & Sc & Vt);
        [| | | exists w'; split; [exact Run|]].
      * unfold after_step. cbn [faults]. exact R3.
      * unfold after_step. cbn [durable version_table]. discriminate.
      * lia.
      * unfold after_step in Sc, Vt. cbn [durable schema] in Sc, Vt.
        split.
        { rewrite Sc. cbn [pending_statements schema].
          rewrite firstn_all. now rewrite app_assoc. }
        intros _. destruct todo as [|todo]; [|apply Vt; discriminate].
        cbn in Run. injection Run as <-. unfold after_step.
        cbn [durable version_table]. do 3 f_equal. lia.
Qed.

(** A call of [Upgrade] with a driver that fails nothing. *)
Lemma Upgrade_faultless (c : Container) (w : World) :
  faultless (faults w) ->
  0 <= stored_version (durable w) ->
  exists w',
    Upgrade Upgrades c w = (Returned None, w') /\
    stored_version (durable w') = Z.max (stored_version (durable w)) 4 /\
    schema (durable w') =
      schema (durable w) ++
      pending_statements c (Z.to_nat (stored_version (durable w)))
        (4 - Z.to_nat (stored_version (durable w))).
Proof.
  intros F V.
  unfold Upgrade, bind. rewrite getVersion_eq.
  destruct (pop_faultless _ F) as [P1 R1].
  destruct (pop (faults w)) as [f1 r1]. cbn [fst snd] in P1, R1. subst f1.
  destruct (pop_faultless _ R1) as [P2 R2].
  cbv zeta.
  destruct (pop r1) as [f2 r2]. cbn [fst snd] in P2, R2. subst f2.
  cbn [isErr]. unfold upgrade_from.
  set (w1 := set_faults r2 (install (created (durable w)) (set_faults r1 w))).
  assert (D1 : durable w1 = created (durable w)) by reflexivity.
  assert (T1 : version_table (durable w1) <> None).
  { rewrite D1. unfold created.
    destruct (version_table (durable w)) eqn:E; [rewrite E|]; discriminate. }
  assert (S1 : schema (durable w1) = schema (durable w)).
  { rewrite D1. unfold created. now destruct (version_table (durable w)). }
  assert (V1 : stored_version (durable w1) = stored_version (durable w)).
  { rewrite D1. apply stored_version_created. }
  change (len Upgrades) with 4.
  destruct (Z.ltb_spec (stored_version (durable w)) 4) as [Lt|Ge].
  - destruct (loop_faultless c (Z.to_nat (4 - stored_version (durable w)))
                (Z.to_nat (stored_version (durable w))) w1)
      as (w' & Run & Sc & Vt); [exact R2 | exact T1 | lia |].
    rewrite Z2Nat.id in Run by lia.
    exists w'. split; [exact Run|]. split.
    + unfold stored_version at 1. rewrite Vt by lia. lia.
    + rewrite Sc, S1. do 2 f_equal. lia.
  - replace (Z.to_nat (4 - stored_version (durable w))) with O by lia.
    exists w1. split; [reflexivity|]. split.
    + rewrite V1. lia.
    + replace (4 - Z.to_nat (stored_version (durable w)))%nat with O by lia.
      cbn. now rewrite app_nil_r.
Qed.

(** X13.  When the driver fails nothing, [Upgrade] with the steps of
    [Upgrades] goes through on every store whose version is not negative:
    it returns no error, leaves the store at version 4 (or at its own
    version if that is higher), and has added to the schema the statements
    of the steps from the stored version on, each step's statements in
    their order, and nothing else. *)
Theorem upgrade_completes_when_nothing_fails :
  forall (c : Container) (w : World),
    faultless (faults w) ->
    0 <= stored_version (durable w) ->
    exists w',
      Upgrade Upgrades c w = (Returned None, w') /\
      stored_version (durable w') = Z.max (stored_version (durable w)) 4 /\
      schema (durable w') =
        schema (durable w) ++
        pending_statements c (Z.to_nat (stored_version (durable w)))
          (4 - Z.to_nat (stored_version (durable w))).
Proof.
  intros c w F V. exact (Upgrade_faultless c w F V).
Qed.

(** ** A store that is part of the way *)

Section Resume.

Variable registry : list upgradeFunc.
Variable c : Container.

(** X11.  [Upgrade] takes up where the store is.  When [getVersion] reads
    the stored version [k] and [Upgrade] returns no error, it has applied
    the steps [k], [k + 1], ..., [N - 1] and no others (none at all when
    [k] is [N] or more): step [i] was run to its end without error on the
    store that the step before it left (step [k] on the store it found,
    with the version table created), while the durable store was at version
    [i]; its transaction was committed with what the step produced and the
    version row [i + 1]; and the durable store at the end is the one the
    last step left, at version [N], or the store found when [k] is [N] or
    more. *)
Theorem upgrade_resumes_at_stored_version :
  forall w w' : World,
    reads_ok w ->
    Upgrade registry c w = (Returned None, w') ->
    stored_version (durable w') =
      Z.max (stored_version (durable w)) (len registry) /\
    exists cs : list Call,
      calls w' = calls w ++ cs /\
      map call_step cs =
        zseq (stored_version (durable w))
          (Z.to_nat (len registry - stored_version (durable w))) /\
      Forall seen_at_own_version cs /\
      Forall (committed_call w') cs /\
      applied registry c w' (created (durable w)) cs (durable w').
Proof.
  intros w w' Rd U.
  pose proof (reads_ok_stored c w Rd) as Rs. unfold reads_stored_version in Rs.
  destruct (getVersion_frame c w) as (Fc & _ & _ & Fv & _).
  destruct (Upgrade_spec _ _ _ _ _ U) as [(e & _ & D & _)|(v & G & Lp)];
    [discriminate|].
  rewrite G in Rs. cbn [fst snd] in Rs. specialize (Rs eq_refl). subst v.
  destruct (loop_success _ _ _ _ _ _ Lp) as (cs & E & Len & Com & Fin).
  destruct (loop_calls _ _ _ _ _ _ _ Lp) as (cs' & E' & _ & St & Seen & _).
  rewrite E in E'. apply app_inv_head in E'. subst cs'.
  destruct (loop_applied _ _ _ _ _ _ Lp) as (cs' & E' & Ap).
  rewrite E in E'. apply app_inv_head in E'. subst cs'.
  assert (Dc : durable (snd (getVersion c w)) = created (durable w))
    by (apply (getVersion_created c w (stored_version (durable w))); exact G).
  rewrite Dc in Ap.
  split.
  - destruct (Z.to_nat (len registry - stored_version (durable w)))
      as [|n] eqn:N.
    + subst w'. rewrite Fv. lia.
    + unfold stored_version at 1. rewrite Fin. lia.
  - exists cs. rewrite <- Fc. split; [exact E|].
    split; [now rewrite <- Len|]. split; [apply Seen; exact Fv|].
    split; [exact Com | exact Ap].
Qed.

End Resume.

(** ** A failed run and the one after it *)

Section Rollback.

Variable registry : list upgradeFunc.
Variable c : Container.

(** X14.  The error of the [Rollback] is dropped.  When a step fails with
    [e], the loop rolls its transaction back and returns [e], whatever the
    [Rollback] itself answers: its result [r] reaches nobody.  The durable
    store and its history are those from before the iteration and the
    transaction is over. *)
Theorem rollback_error_is_discarded :
  forall (version : Z) (w w1 w2 w3 : World) (tx : Tx)
         (migrateFunc : upgradeFunc) (e : string) (r : error),
    version < len registry ->
    db_Begin w = ((tx, None), w1) ->
    index registry version = Some migrateFunc ->
    invoke version tx (migrateFunc c)
      (snd (log_Infof "Upgrading database to v%d" [version + 1] w1))
      = (Some e, w2) ->
    tx_Rollback tx w2 = (r, w3) ->
    upgrade_from registry c version w = (Returned (Some e), w3) /\
    durable w3 = durable w /\ past w3 = past w /\
    (exists p, lookup_tx w3 tx = Some (mkTx TxRolledBack p)) /\
    (forall (w0 : World) (version0 : Z) (wl : World),
       getVersion c w0 = ((version0, None), wl) ->
       reaches registry c version0 wl version w ->
       Upgrade registry c w0 = (Returned (Some e), w3)).
Proof.
  intros version w w1 w2 w3 tx f e r Lt B I Inv Rb.
  assert (Run : upgrade_from registry c version w = (Returned (Some e), w3)).
  { rewrite upgrade_from_unfold.
    destruct (Z.ltb_spec version (len registry)); [|lia].
    unfold bind, upgrade_iteration, bind. rewrite B. cbn [isErr]. rewrite I.
    unfold log_Infof in *. cbn [snd] in Inv. rewrite Inv. cbn [isErr].
    rewrite Rb. reflexivity. }
  split; [exact Run|].
  destruct (begun_open _ _ _ B) as (L1 & D1 & P1).
  unfold log_Infof in Inv. cbn [snd] in Inv.
  assert (L1' : lookup_tx (add_log ("Upgrading database to v%d", [version + 1]) w1) tx
                = Some (mkTx TxOpen (durable w))) by exact L1.
  destruct (invoke_keeps_open _ _ _ _ _ _ _ L1' Inv) as ((s2 & L2 & _) & D2 & P2).
  change (durable (add_log _ w1)) with (durable w1) in D2.
  change (past (add_log _ w1)) with (past w1) in P2.
  unfold tx_Rollback in Rb. rewrite L2 in Rb.
  destruct (pop (faults w2)) as [r' rest]. injection Rb as <- <-.
  split; [|split; [|split]].
  - rewrite (proj1 (durable_update _ _ _)). cbn [set_faults durable].
    congruence.
  - rewrite (proj2 (durable_update _ _ _)). cbn [set_faults past].
    congruence.
  - eexists. apply (lookup_update (set_faults rest w2) tx _ _ L2).
  - intros w0 v0 wl G Re. unfold Upgrade, bind. rewrite G. cbn [isErr].
    rewrite (reaches_upgrade_from _ _ _ _ _ _ Re). exact Run.
Qed.

End Rollback.

Lemma first_failure_none (n : nat) :
  forall fs k, first_failure n fs = (k, None) -> k = n.
Proof.
  induction n as [|n IH]; intros fs k H; cbn [first_failure] in H.
  - now injection H as <-.
  - destruct (pop fs) as [[e|] rest]; [discriminate|].
    destruct (first_failure n rest) as [k' err] eqn:E.
    injection H as <- ->. f_equal. exact (IH _ _ E).
Qed.

(** A step of [Upgrades] that returns no error has sent all its
    statements. *)
Lemma step_done (c : Container) (i : nat) (f : upgradeFunc) (s mid : Store)
    (fs fs2 : list error) :
  nth_error Upgrades i = Some f ->
  exec_prog (f c) s fs = (None, mid, fs2) ->
  mid = mkStore (version_table s) (schema s ++ step_statements c i).
Proof.
  intros N E. destruct (Upgrades_send c i f N) as [Sd Pl].
  rewrite (sends_exec _ _ Sd Pl) in E.
  destruct (first_failure (List.length (step_statements c i)) fs)
    as [k err] eqn:F.
  cbn [fst snd] in E. injection E as -> <- _.
  apply first_failure_none in F. subst k. now rewrite firstn_all.
Qed.

(** With the steps of [Upgrades], calls that are [applied] one after the
    other from step [k] on leave the statements of these steps in the
    schema, each step's statements once and in order. *)
Lemma applied_schema (c : Container) (w' : World) (cs : list Call) :
  forall (k : nat) (s final : Store),
    applied Upgrades c w' s cs final ->
    map call_step cs = zseq (Z.of_nat k) (List.length cs) ->
    schema final = schema s ++ pending_statements c k (List.length cs).
Proof.
  induction cs as [|cl cs IH]; intros k s final Ap St.
  - cbn in *. subst final. now rewrite app_nil_r.
  - cbn [applied] in Ap.
    destruct Ap as (_ & _ & f & fs & mid & fs' & Ix & Ex & _ & Ap).
    cbn [map List.length zseq] in St. injection St as Sa St.
    rewrite Sa in Ix, Ap.
    assert (N : nth_error Upgrades k = Some f).
    { unfold index in Ix. destruct (Z.ltb_spec (Z.of_nat k) 0); [lia|].
      now rewrite Nat2Z.id in Ix. }
    rewrite (step_done c k f _ _ _ _ N Ex) in Ap. cbn [schema] in Ap.
    replace (Z.of_nat k + 1) with (Z.of_nat (S k)) in St by lia.
    rewrite (IH (S k) _ _ Ap St). cbn [schema List.length pending_statements].
    now rewrite app_assoc.
Qed.

Lemma pending_statements_app (c : Container) (n : nat) :
  forall k m,
    pending_statements c k (n + m) =
    pending_statements c k n ++ pending_statements c (k + n) m.
Proof.
  induction n as [|n IH]; intros k m; cbn [pending_statements Nat.add app].
  - now rewrite Nat.add_0_r.
  - rewrite IH, <- app_assoc. now rewrite Nat.add_succ_r.
Qed.

(** The loop over [Upgrades], whatever the driver fails: the durable store
    has the statements of the steps that were committed, and their version. *)
Lemma loop_schema (c : Container) todo version w out w' :
  loop_spec Upgrades c todo version w out w' ->
  forall k : nat,
    version = Z.of_nat k ->
    (todo <= 4 - k)%nat ->
    exists n : nat,
      (n <= todo)%nat /\
      schema (durable w') = schema (durable w) ++ pending_statements c k n /\
      match n with
      | O => durable w' = durable w
      | S _ => version_table (durable w') = Some [VInt (Z.of_nat (k + n))]
      end.
Proof.
  induction 1 as [v w | n v w out w' It | n v w w1 out w' It Lp IH];
    intros k Hv K.
  - exists O. cbn. rewrite app_nil_r. auto.
  - exists O. cbn [pending_statements]. rewrite app_nil_r.
    split; [lia|].
    inversion It; subst; unfold after_step, set_faults; cbn [durable]; auto.
  - inversion It as
      [ | | | |
      | fs1 f mid fs2 mid' fs3 fs4 Pb In Ex Sv Pc ]; subst; clear It.
    assert (Ix : nth_error Upgrades k = Some f).
    { unfold index in In. destruct (Z.ltb_spec (Z.of_nat k) 0); [lia|].
      now rewrite Nat2Z.id in In. }
    apply setVersion_ok in Sv. destruct Sv as [-> _].
    rewrite (step_done c k f _ _ _ _ Ix Ex) in *. cbn [schema] in *.
    destruct (IH (S k)) as (m & Le & Sc & Vn); [lia | lia |].
    unfold after_step in Sc, Vn. cbn [durable schema] in Sc, Vn.
    exists (S m). split; [lia|]. split.
    + rewrite Sc. cbn [pending_statements]. now rewrite app_assoc.
    + destruct m as [|m].
      * rewrite Vn. cbn [version_table]. do 3 f_equal. lia.
      * rewrite Vn. do 3 f_equal. lia.
Qed.

(** X16.  Taking up a run that broke off.  Let a call of [Upgrade] with the
    steps of [Upgrades], on a store at a version [k >= 0] that [getVersion]
    reads, end in whatever way: some call of the driver failed, at any
    point.  A later call on the store it left, with a driver that fails
    nothing, returns no error and ends with the store that one healthy call
    would have given: at version 4 (or [k] if that is higher), the schema
    extended by the statements of the steps from [k] on, each once and in
    order.  Nothing of a step that broke off is left behind, and no step
    that was committed is run again. *)
Theorem upgrade_retry_reaches_the_same_store :
  forall (c : Container) (w w2 : World),
    reads_ok w ->
    0 <= stored_version (durable w) ->
    durable w2 = durable (snd (Upgrade Upgrades c w)) ->
    faultless (faults w2) ->
    exists w',
      Upgrade Upgrades c w2 = (Returned None, w') /\
      stored_version (durable w') = Z.max (stored_version (durable w)) 4 /\
      schema (durable w') =
        schema (durable w) ++
        pending_statements c (Z.to_nat (stored_version (durable w)))
          (4 - Z.to_nat (stored_version (durable w))).
Proof.
  intros c w w2 Rd V D2 F2.
  destruct (Upgrade Upgrades c w) as [out w1] eqn:U. cbn [snd] in D2.
  pose proof (reads_ok_stored c w Rd) as Rs. unfold reads_stored_version in Rs.
  destruct (getVersion_frame c w) as (_ & _ & _ & Fv & Fs).
  assert (St : exists n : nat,
             (n <= 4 - Z.to_nat (stored_version (durable w)))%nat /\
             schema (durable w1) =
               schema (durable w) ++
               pending_statements c (Z.to_nat (stored_version (durable w))) n /\
             stored_version (durable w1) =
               stored_version (durable w) + Z.of_nat n).
  { destruct (Upgrade_spec _ _ _ _ _ U) as [(e & _ & _ & ->)|(v & G & Lp)].
    - exists O. cbn [pending_statements]. rewrite app_nil_r, Fv, Fs.
      split; [lia|]. split; [reflexivity | lia].
    - rewrite G in Rs. cbn [fst snd] in Rs. specialize (Rs eq_refl). subst v.
      change (len Upgrades) with 4 in Lp.
      destruct (loop_schema c _ _ _ _ _ Lp
                  (Z.to_nat (stored_version (durable w))))
        as (n & Le & Sc & Vn); [lia | lia |].
      exists n. split; [lia|]. rewrite Sc, Fs. split; [reflexivity|].
      destruct n as [|n].
      + rewrite Vn, Fv. lia.
      + unfold stored_version at 1. rewrite Vn. lia. }
  destruct St as (n & Le & Sc & Sv).
  destruct (Upgrade_faultless c w2 F2) as (w' & Run & Vf & Sf);
    [rewrite D2, Sv; lia|].
  exists w'. split; [exact Run|]. rewrite D2, Sv in Vf, Sf. split.
  - rewrite Vf. lia.
  - rewrite Sf, Sc, <- app_assoc. f_equal.
    replace (4 - Z.to_nat (stored_version (durable w)))%nat
      with (n + (4 - Z.to_nat (stored_version (durable w) + Z.of_nat n)))%nat
      by lia.
    rewrite pending_statements_app. do 2 f_equal. lia.
Qed.

(** ** These theorems on concrete runs *)

Lemma upgrade_returns_getVersion_error_witness :
  fst (pop (faults connection_lost_world)) = Some badConn /\
  fst (getVersion sqlite connection_lost_world) = (-1, Some badConn) /\
  Upgrade Upgrades sqlite connection_lost_world =
    (Returned (Some badConn),
     set_faults (snd (pop (faults connection_lost_world)))
       connection_lost_world).
Proof.
  assert (H1 : fst (pop (faults connection_lost_world)) = Some badConn)
    by (vm_compute; reflexivity).
  split; [exact H1|].
  exact (upgrade_returns_getVersion_error Upgrades sqlite
           connection_lost_world badConn H1).
Defined.

Lemma begin_failure_witness :
  (0 < len Upgrades /\
   fst (pop (faults connection_lost_world)) = Some badConn) /\
  upgrade_from Upgrades sqlite 0 connection_lost_world =
    (Returned (Some badConn),
     set_faults (snd (pop (faults connection_lost_world)))
       connection_lost_world).
Proof.
  assert (H1 : 0 < len Upgrades) by (vm_compute; reflexivity).
  assert (H2 : fst (pop (faults connection_lost_world)) = Some badConn)
    by (vm_compute; reflexivity).
  split; [split; [exact H1 | exact H2]|].
  exact (proj1 (begin_failure_is_returned Upgrades sqlite 0
                  connection_lost_world badConn H1 H2)).
Defined.

Lemma commit_failure_witness :
  (3 < len Upgrades /\
   db_Begin commit_fails_world = ((1%nat, None), commit_fails_begun) /\
   index Upgrades 3 = Some upgradeV4 /\
   invoke 3 1%nat (upgradeV4 sqlite)
     (snd (log_Infof "Upgrading database to v%d" [3 + 1] commit_fails_begun))
     = (None, commit_fails_stepped) /\
   run 1%nat (setVersion (3 + 1)) commit_fails_stepped =
     (None, commit_fails_versioned) /\
   tx_Commit 1%nat commit_fails_versioned =
     (Some diskFull, commit_fails_after)) /\
  upgrade_from Upgrades sqlite 3 commit_fails_world =
    (Returned (Some diskFull), commit_fails_after) /\
  durable commit_fails_after = durable commit_fails_world /\
  past commit_fails_after = past commit_fails_world /\
  exists p, lookup_tx commit_fails_after 1%nat = Some (mkTx TxRolledBack p) /\
            version_table p = Some [VInt (3 + 1)].
Proof.
  assert (H1 : 3 < len Upgrades) by (vm_compute; reflexivity).
  assert (F2 : fst (db_Begin commit_fails_world) = (1%nat, None))
    by (vm_compute; reflexivity).
  pose proof (run_result _ _ F2) as H2.
  assert (H3 : index Upgrades 3 = Some upgradeV4) by reflexivity.
  assert (F4 : fst (invoke 3 1%nat (upgradeV4 sqlite)
                      (snd (log_Infof "Upgrading database to v%d" [3 + 1]
                              commit_fails_begun))) = None)
    by (vm_compute; reflexivity).
  pose proof (run_result _ _ F4) as H4.
  assert (F5 : fst (run 1%nat (setVersion (3 + 1)) commit_fails_stepped) =
               None)
    by (vm_compute; reflexivity).
  pose proof (run_result _ _ F5) as H5.
  assert (F6 : fst (tx_Commit 1%nat commit_fails_versioned) = Some diskFull)
    by (vm_compute; reflexivity).
  pose proof (run_result _ _ F6) as H6.
  split;
    [split; [exact H1 | split; [exact H2 | split; [exact H3 | split;
       [exact H4 | split; [exact H5 | exact H6]]]]]|].
  destruct (commit_failure_is_returned Upgrades sqlite 3
              commit_fails_world commit_fails_begun commit_fails_stepped
              commit_fails_versioned commit_fails_after 1%nat upgradeV4
              diskFull H1 H2 H3 H4 H5 H6) as (A & B & C & D & _).
  split; [exact A | split; [exact B | split; [exact C | exact D]]].
Defined.

Lemma negative_version_witness :
  (quiet 3 (faults negative_world) /\
   stored_version (durable negative_world) < 0) /\
  exists w',
    Upgrade Upgrades sqlite negative_world = (Panicked, w') /\
    durable w' = durable negative_world /\
    txs w' = txs negative_world ++ [mkTx TxOpen (durable negative_world)] /\
    calls w' = calls negative_world /\ log w' = log negative_world.
Proof.
  assert (H1 : quiet 3 (faults negative_world))
    by (intros k _; destruct k; reflexivity).
  assert (H2 : stored_version (durable negative_world) < 0)
    by (vm_compute; reflexivity).
  split; [split; [exact H1 | exact H2]|].
  exact (negative_version_panics Upgrades sqlite negative_world H1 H2).
Defined.

Lemma store_ahead_witness :
  (reads_ok newer_world /\
   len Upgrades <= stored_version (durable newer_world)) /\
  exists w',
    Upgrade Upgrades sqlite newer_world = (Returned None, w') /\
    durable w' = created (durable newer_world) /\
    stored_version (durable w') = stored_version (durable newer_world) /\
    txs w' = txs newer_world /\
    calls w' = calls newer_world /\ log w' = log newer_world.
Proof.
  assert (H1 : reads_ok newer_world) by (split; vm_compute; reflexivity).
  assert (H2 : len Upgrades <= stored_version (durable newer_world))
    by (vm_compute; discriminate).
  split; [split; [exact H1 | exact H2]|].
  exact (store_ahead_is_left_alone Upgrades sqlite newer_world H1 H2).
Defined.

Lemma setVersion_failure_modes_witness :
  run 1%nat (setVersion 4) second_fails_world =
    (Some diskFull, second_fails_versioned) /\
  durable second_fails_versioned = durable second_fails_world /\
  ((forall s, lookup_tx second_fails_world 1%nat <> Some (mkTx TxOpen s)) ->
     diskFull = ErrTxDone /\ second_fails_versioned = second_fails_world) /\
  (forall p, lookup_tx second_fails_world 1%nat = Some (mkTx TxOpen p) ->
     lookup_tx second_fails_versioned 1%nat = Some (mkTx TxOpen p) \/
     (version_table p <> None /\
      lookup_tx second_fails_versioned 1%nat =
        Some (mkTx TxOpen (mkStore (Some []) (schema p))))).
Proof.
  assert (F : fst (run 1%nat (setVersion 4) second_fails_world) =
              Some diskFull)
    by (vm_compute; reflexivity).
  pose proof (run_result _ _ F) as H1.
  split; [exact H1|].
  exact (setVersion_failure_modes 1%nat 4 second_fails_world
           second_fails_versioned diskFull H1).
Defined.

Lemma committed_version_witness :
  (db_Begin resume_world = ((1%nat, None), resume_begun) /\
   run 1%nat (setVersion 9) resume_begun = (None, resume_versioned) /\
   tx_Commit 1%nat resume_versioned = (None, resume_committed)) /\
  durable resume_committed =
    mkStore (Some [VInt 9]) (schema (durable resume_world)) /\
  (reads_ok resume_committed ->
     fst (getVersion sqlite resume_committed) = (9, None)).
Proof.
  assert (F1 : fst (db_Begin resume_world) = (1%nat, None))
    by (vm_compute; reflexivity).
  pose proof (run_result _ _ F1) as H1.
  assert (F2 : fst (run 1%nat (setVersion 9) resume_begun) = None)
    by (vm_compute; reflexivity).
  pose proof (run_result _ _ F2) as H2.
  assert (F3 : fst (tx_Commit 1%nat resume_versioned) = None)
    by (vm_compute; reflexivity).
  pose proof (run_result _ _ F3) as H3.
  split; [split; [exact H1 | split; [exact H2 | exact H3]]|].
  exact (committed_version_is_read_back sqlite 9 resume_world resume_begun
           resume_versioned resume_committed 1%nat H1 H2 H3).
Defined.

Lemma upgrade_version_counts_commits_witness :
  (fst (getVersion sqlite resume_world) = (3, None) /\
   txs resumed_world =
     txs resume_world ++
     [mkTx TxCommitted
        (mkStore (Some [VInt 4])
           ["CREATE TABLE t (x INTEGER)"; createPrivacyTokens])]) /\
  match
    List.length
      (filter is_committed
         [mkTx TxCommitted
            (mkStore (Some [VInt 4])
               ["CREATE TABLE t (x INTEGER)"; createPrivacyTokens])])
  with
  | O => durable resumed_world = durable (snd (getVersion sqlite resume_world))
  | S n => version_table (durable resumed_world) =
             Some [VInt (3 + Z.of_nat (S n))]
  end.
Proof.
  assert (H1 : fst (getVersion sqlite resume_world) = (3, None))
    by (vm_compute; reflexivity).
  assert (H2 : txs resumed_world =
               txs resume_world ++
               [mkTx TxCommitted
                  (mkStore (Some [VInt 4])
                     ["CREATE TABLE t (x INTEGER)"; createPrivacyTokens])])
    by (vm_compute; reflexivity).
  split; [split; [exact H1 | exact H2]|].
  exact (upgrade_version_counts_commits Upgrades sqlite resume_world 3 _
           H1 H2).
Defined.

Lemma upgrade_resumes_witness :
  (reads_ok resume_world /\
   Upgrade Upgrades sqlite resume_world = (Returned None, resumed_world)) /\
  (stored_version (durable resumed_world) =
     Z.max (stored_version (durable resume_world)) (len Upgrades) /\
   exists cs : list Call,
     calls resumed_world = calls resume_world ++ cs /\
     map call_step cs =
       zseq (stored_version (durable resume_world))
         (Z.to_nat (len Upgrades - stored_version (durable resume_world))) /\
     Forall seen_at_own_version cs /\
     Forall (committed_call resumed_world) cs /\
     applied Upgrades sqlite resumed_world (created (durable resume_world)) cs
       (durable resumed_world)) /\
  schema (durable resumed_world) =
    schema (durable resume_world) ++ step_statements sqlite 3.
Proof.
  assert (H1 : reads_ok resume_world) by (split; vm_compute; reflexivity).
  assert (F : fst (Upgrade Upgrades sqlite resume_world) = Returned None)
    by (vm_compute; reflexivity).
  pose proof (run_result _ _ F) as H2.
  split; [split; [exact H1 | exact H2]|].
  split; [|vm_compute; reflexivity].
  exact (upgrade_resumes_at_stored_version Upgrades sqlite resume_world
           resumed_world H1 H2).
Defined.

Lemma step_sends_its_statements_witness :
  (nth_error Upgrades 1 = Some upgradeV2 /\
   lookup_tx second_fails_world 1%nat = Some (mkTx TxOpen small_store)) /\
  let sent :=
    first_failure (List.length (step_statements sqlite 1))
      (faults second_fails_world) in
  fst (run 1%nat (upgradeV2 sqlite) second_fails_world) = snd sent /\
  lookup_tx (snd (run 1%nat (upgradeV2 sqlite) second_fails_world)) 1%nat =
    Some (mkTx TxOpen
            (mkStore (version_table small_store)
               (schema small_store ++
                firstn (fst sent) (step_statements sqlite 1)))) /\
  durable (snd (run 1%nat (upgradeV2 sqlite) second_fails_world)) =
    durable second_fails_world.
Proof.
  assert (H1 : nth_error Upgrades 1 = Some upgradeV2) by reflexivity.
  assert (H2 : lookup_tx second_fails_world 1%nat =
               Some (mkTx TxOpen small_store)) by reflexivity.
  split; [split; [exact H1 | exact H2]|].
  exact (step_sends_its_statements_in_order sqlite 1 upgradeV2 1%nat
           second_fails_world small_store H1 H2).
Defined.

Lemma upgrade_completes_witness :
  (faultless (faults fresh_world) /\
   0 <= stored_version (durable fresh_world)) /\
  exists w',
    Upgrade Upgrades sqlite fresh_world = (Returned None, w') /\
    stored_version (durable w') =
      Z.max (stored_version (durable fresh_world)) 4 /\
    schema (durable w') =
      schema (durable fresh_world) ++
      pending_statements sqlite
        (Z.to_nat (stored_version (durable fresh_world)))
        (4 - Z.to_nat (stored_version (durable fresh_world))).
Proof.
  assert (H1 : faultless (faults fresh_world)) by exact (Forall_nil _).
  assert (H2 : 0 <= stored_version (durable fresh_world))
    by (vm_compute; discriminate).
  split; [split; [exact H1 | exact H2]|].
  exact (upgrade_completes_when_nothing_fails sqlite fresh_world H1 H2).
Defined.


Lemma rollback_error_witness :
  (3 < len Upgrades /\
   db_Begin rollback_fails_world = ((1%nat, None), rollback_fails_begun) /\
   index Upgrades 3 = Some upgradeV4 /\
   invoke 3 1%nat (upgradeV4 sqlite)
     (snd (log_Infof "Upgrading database to v%d" [3 + 1] rollback_fails_begun))
     = (Some tableExists, rollback_fails_stepped) /\
   tx_Rollback 1%nat rollback_fails_stepped =
     (Some badConn, rollback_fails_after)) /\
  upgrade_from Upgrades sqlite 3 rollback_fails_world =
    (Returned (Some tableExists), rollback_fails_after) /\
  durable rollback_fails_after = durable rollback_fails_world /\
  past rollback_fails_after = past rollback_fails_world /\
  exists p, lookup_tx rollback_fails_after 1%nat = Some (mkTx TxRolledBack p).
Proof.
  assert (H1 : 3 < len Upgrades) by (vm_compute; reflexivity).
  assert (F2 : fst (db_Begin rollback_fails_world) = (1%nat, None))
    by (vm_compute; reflexivity).
  pose proof (run_result _ _ F2) as H2.
  assert (H3 : index Upgrades 3 = Some upgradeV4) by reflexivity.
  assert (F4 : fst (invoke 3 1%nat (upgradeV4 sqlite)
                      (snd (log_Infof "Upgrading database to v%d" [3 + 1]
                              rollback_fails_begun))) = Some tableExists)
    by (vm_compute; reflexivity).
  pose proof (run_result _ _ F4) as H4.
  assert (F5 : fst (tx_Rollback 1%nat rollback_fails_stepped) = Some badConn)
    by (vm_compute; reflexivity).
  pose proof (run_result _ _ F5) as H5.
  split;
    [split; [exact H1 | split; [exact H2 | split; [exact H3 | split;
       [exact H4 | exact H5]]]]|].
  destruct (rollback_error_is_discarded Upgrades sqlite 3
              rollback_fails_world rollback_fails_begun
              rollback_fails_stepped rollback_fails_after 1%nat upgradeV4
              tableExists (Some badConn) H1 H2 H3 H4 H5) as (A & B & C & D & _).
  split; [exact A | split; [exact B | split; [exact C | exact D]]].
Defined.


Lemma upgrade_retry_witness :
  (reads_ok step1_fails_world /\
   0 <= stored_version (durable step1_fails_world) /\
   durable retry_world = durable step1_fails_after /\
   faultless (faults retry_world)) /\
  exists w',
    Upgrade Upgrades sqlite retry_world = (Returned None, w') /\
    stored_version (durable w') =
      Z.max (stored_version (durable step1_fails_world)) 4 /\
    schema (durable w') =
      schema (durable step1_fails_world) ++
      pending_statements sqlite
        (Z.to_nat (stored_version (durable step1_fails_world)))
        (4 - Z.to_nat (stored_version (durable step1_fails_world))).
Proof.
  assert (H1 : reads_ok step1_fails_world)
    by (split; vm_compute; reflexivity).
  assert (H2 : 0 <= stored_version (durable step1_fails_world))
    by (vm_compute; discriminate).
  assert (H3 : durable retry_world = durable step1_fails_after)
    by (vm_compute; reflexivity).
  assert (H4 : faultless (faults retry_world)) by exact (Forall_nil _).
  split; [split; [exact H1 | split; [exact H2 | split; [exact H3 | exact H4]]]|].
  exact (upgrade_retry_reaches_the_same_store sqlite step1_fails_world
           retry_world H1 H2 H3 H4).
Defined.

End Sqlstore.
